(** * Multi-track data report: loader/normaliser and statistics aggregator

    A shallow embedding of [auto_load_excel], [load_and_clean_excel] and
    [compute_statistics] of [report_generator.py], and the properties of
    the specification that concern them; then of
    [generate_performance_alerts], of the menus and of [main], with
    further properties of the code.

    Modelling conventions.
    - A spreadsheet cell is a value of [cell]: a missing float ([NaN]), the
      pandas missing marker ([NA]), a Python [bool], [int], [float] or
      [str]. Every sheet has the nine columns the program reads.
    - Text is a sequence of ASCII characters ([string]); the character
      classes of Python (the digits of the pattern, [str.isspace],
      [str.upper]) are given on ASCII only.
    - A finite Python float is identified with the decimal that [repr]
      prints for it (sign, shortest digit string, position of the decimal
      point). Numbers computed by the program are exact rationals ([Qc]);
      rounding and overflow of float64 arithmetic are outside the model,
      and so is the square root of Pearson's coefficient, which is kept as
      a numerator and the square of its divisor.
    - pandas calls are given by their behaviour on object columns (pandas
      1.x and 2.x): [replace], [astype], [str.extract], [to_numeric],
      [map], [concat], [groupby] (null keys dropped), [mean] (nulls
      skipped), [count], [unique], [corr] (Pearson over pairwise complete
      observations, [min_periods = 1]) and [iloc].
    - A table indexed by group is a finite map from the key, a cell, to
      its row; keys are compared as cells, and the order in which pandas
      lists the groups is not kept.
    - A raised Python exception is the left summand of [except].
    - The shell reads the lines typed from a list and leaves a trace of
      what it shows; its loops run on fuel. The plots of
      [generate_visuals] and the files of [export_outputs] are outside the
      model: a call of either is an event of the trace, and whether it
      raises is a parameter. *)

From Stdlib Require Import ZArith QArith Qcanon Ascii String.
From Stdlib Require Import DecimalString DecimalN DecimalPos.
From stdpp Require Import base list strings numbers gmap.

Local Open Scope string_scope.

(** ** Exceptions *)

Inductive exn : Type :=
| FileNotFoundError
| TypeError
| ValueError
| IndexError.

Definition except (A : Type) : Type := (exn + A)%type.

Definition ret {A} (a : A) : except A := inr a.
Definition raise {A} (e : exn) : except A := inl e.
Definition bind {A B} (m : except A) (k : A → except B) : except B :=
  match m with
  | inl e => inl e
  | inr a => k a
  end.

Notation "x ←! m ; k" := (bind m (λ x, k))
  (at level 100, m at next level, right associativity, only parsing).

Fixpoint for_each {A B} (f : A → except B) (l : list A) : except (list B) :=
  match l with
  | [] => ret []
  | a :: l' => b ←! f a; bs ←! for_each f l'; ret (b :: bs)
  end.

(** ** Python text *)

Module PyStr.

Definition code (c : ascii) : N := N_of_ascii c.

(** [\d] on ASCII. *)
Definition is_digit (c : ascii) : bool :=
  (48 <=? code c)%N && (code c <=? 57)%N.

(** [str.isspace] on ASCII: TAB, LF, VT, FF, CR, FS, GS, RS, US, space. *)
Definition is_space (c : ascii) : bool :=
  ((9 <=? code c)%N && (code c <=? 13)%N)
  || ((28 <=? code c)%N && (code c <=? 32)%N).

Definition upper_char (c : ascii) : ascii :=
  if (97 <=? code c)%N && (code c <=? 122)%N
  then ascii_of_N (code c - 32) else c.

Fixpoint upper (s : string) : string :=
  match s with
  | EmptyString => EmptyString
  | String c s' => String (upper_char c) (upper s')
  end.

Fixpoint lstrip (s : string) : string :=
  match s with
  | EmptyString => EmptyString
  | String c s' => if is_space c then lstrip s' else s
  end.

Fixpoint rstrip (s : string) : string :=
  match s with
  | EmptyString => EmptyString
  | String c s' =>
      match rstrip s' with
      | EmptyString => if is_space c then EmptyString else String c EmptyString
      | t => String c t
      end
  end.

Definition strip (s : string) : string := rstrip (lstrip s).

Fixpoint all_digits (s : string) : bool :=
  match s with
  | EmptyString => true
  | String c s' => is_digit c && all_digits s'
  end.

Fixpoint count_digits (s : string) : nat :=
  match s with
  | EmptyString => 0
  | String c s' => (if is_digit c then 1 else 0) + count_digits s'
  end.

Fixpoint no_digit (s : string) : bool :=
  match s with
  | EmptyString => true
  | String c s' => negb (is_digit c) && no_digit s'
  end.

Fixpoint all_space (s : string) : bool :=
  match s with
  | EmptyString => true
  | String c s' => is_space c && all_space s'
  end.

(** The longest prefix of digits and what follows it. *)
Fixpoint span_digits (s : string) : string * string :=
  match s with
  | EmptyString => (EmptyString, EmptyString)
  | String c s' =>
      if is_digit c
      then let '(d, r) := span_digits s' in (String c d, r)
      else (EmptyString, s)
  end.

(** [padded ch s]: [s] is the single character [ch] between two runs of
    whitespace. *)
Definition padded (ch : ascii) (s : string) : Prop :=
  ∃ l r, s = l +:+ String ch r ∧ all_space l = true ∧ all_space r = true.

(** Whether a text starts with a character of a given class. *)
Definition starts_with (p : ascii → bool) (s : string) : bool :=
  match s with
  | EmptyString => false
  | String c _ => p c
  end.

Fixpoint zeros (n : nat) : string :=
  match n with
  | O => EmptyString
  | S n' => String "0" (zeros n')
  end.

(** [str(n)] for a natural number and for a Python [int]. *)
Definition str_of_N (n : N) : string := NilEmpty.string_of_uint (N.to_uint n).
Definition str_of_int (z : Z) : string := NilEmpty.string_of_int (Z.to_int z).

(** Value of a digit string read in base ten, most significant first. *)
Definition digit_of (c : ascii) : N := (code c - 48)%N.

Fixpoint digits_value_acc (acc : N) (s : string) : N :=
  match s with
  | EmptyString => acc
  | String c s' => digits_value_acc (10 * acc + digit_of c)%N s'
  end.

Definition digits_value (s : string) : N := digits_value_acc 0 s.

End PyStr.

(** ** Python floats through their [repr] *)

(** [float_digits] is the integer whose decimal digits are the significant
    digits of the float, [float_decpt] the position of the decimal point
    relative to the first digit: the float is
    [± 0.d1 d2 ... dn × 10 ^ float_decpt]. Zero is [0] with point [1]. *)
Record pyfloat : Type := PyFloatOf {
  float_neg : bool;
  float_digits : N;
  float_decpt : Z
}.

Fixpoint pow10 (n : nat) : positive :=
  match n with
  | O => 1%positive
  | S n' => (10 * pow10 n')%positive
  end.

Definition float_ndigits (f : pyfloat) : nat :=
  String.length (PyStr.str_of_N (float_digits f)).

(** The number a float stands for. *)
Definition float_magnitude (f : pyfloat) : Qc :=
  let m := Z.of_N (float_digits f) in
  let e := (float_decpt f - Z.of_nat (float_ndigits f))%Z in
  if (0 <=? e)%Z
  then Q2Qc (inject_Z (m * Z.pos (pow10 (Z.to_nat e))))
  else Q2Qc (m # pow10 (Z.to_nat (- e))).

Definition float_value (f : pyfloat) : Qc :=
  if float_neg f then (- float_magnitude f)%Qc else float_magnitude f.

(** [repr] of a finite float: exponent notation when four or more zeros
    would follow the point before the first digit, or more than sixteen
    digits would precede the point; positional notation with at least one
    digit after the point otherwise. *)
Definition float_uses_exponent (f : pyfloat) : bool :=
  (float_decpt f <=? -4)%Z || (16 <? float_decpt f)%Z.

Definition exponent_text (e : Z) : string :=
  let a := PyStr.str_of_N (Z.to_N (Z.abs e)) in
  (if (e <? 0)%Z then "-" else "+")
    +:+ (if (String.length a <? 2)%nat then "0" +:+ a else a).

Definition float_repr_abs (f : pyfloat) : string :=
  let ds := PyStr.str_of_N (float_digits f) in
  let n := String.length ds in
  let p := float_decpt f in
  if float_uses_exponent f then
    substring 0 1 ds
      +:+ (if (1 <? n)%nat then "." +:+ substring 1 (n - 1) ds else "")
      +:+ "e" +:+ exponent_text (p - 1)
  else if (p <=? 0)%Z then
    "0." +:+ PyStr.zeros (Z.to_nat (- p)) +:+ ds
  else if (p <? Z.of_nat n)%Z then
    substring 0 (Z.to_nat p) ds +:+ "."
      +:+ substring (Z.to_nat p) (n - Z.to_nat p) ds
  else
    ds +:+ PyStr.zeros (Z.to_nat p - n) +:+ ".0".

Definition float_repr (f : pyfloat) : string :=
  (if float_neg f then "-" else "") +:+ float_repr_abs f.

(** ** Cells *)

Inductive cell : Type :=
| NaN
| NA
| PyBool (b : bool)
| PyInt (z : Z)
| PyFloat (f : pyfloat)
| PyStr (s : string).

Definition is_null (c : cell) : bool :=
  match c with
  | NaN | NA => true
  | _ => false
  end.

(** The number a cell holds, when it holds one. *)
Definition cell_number (c : cell) : option Qc :=
  match c with
  | PyInt z => Some (Qc_of_Z z)
  | PyFloat f => Some (float_value f)
  | _ => None
  end.

(** Whether [str] writes the cell without an exponent. *)
Definition written_plainly (c : cell) : bool :=
  match c with
  | PyFloat f => negb (float_uses_exponent f)
  | _ => true
  end.

(** [df.replace(["Waived", "N/A", "NA", ""], pd.NA)], cell by cell. *)
Definition missing_tokens : list string := ["Waived"; "N/A"; "NA"; ""].

Definition replace (c : cell) : cell :=
  match c with
  | PyStr s => if bool_decide (s ∈ missing_tokens) then NA else c
  | _ => c
  end.

(** [.astype(str)] *)
Definition astype_str (c : cell) : string :=
  match c with
  | NaN => "nan"
  | NA => "<NA>"
  | PyBool true => "True"
  | PyBool false => "False"
  | PyInt z => PyStr.str_of_int z
  | PyFloat f => float_repr f
  | PyStr s => s
  end.

(** Whether [str] writes the cell with fifteen digits at most. The parser
    of [pd.to_numeric] gathers the digits of a text in a float and scales
    it by a power of ten: up to fifteen digits the result is the float
    nearest to the decimal written, so that a number written so is read
    back as itself; with more digits the digits gathered are rounded
    before the scaling and a neighbouring float may come out. *)
Definition written_shortly (c : cell) : bool :=
  (PyStr.count_digits (astype_str c) <=? 15)%nat.

(** [.astype(bool)]: the truth value of each element; [pd.NA] has none. *)
Definition astype_bool (c : cell) : except bool :=
  match c with
  | NaN => ret true
  | NA => raise TypeError
  | PyBool b => ret b
  | PyInt z => ret (negb (z =? 0)%Z)
  | PyFloat f => ret (negb (float_digits f =? 0)%N)
  | PyStr s => ret (negb (String.eqb s ""))
  end.

(** [.str.extract] with the pattern [\d+\.?\d*] in one capture group: the
    leftmost match, each repetition greedy; missing when there is none. *)
Definition match_number (s : string) : string :=
  let '(d1, r1) := PyStr.span_digits s in
  match r1 with
  | String "."%char r2 => d1 +:+ "." +:+ fst (PyStr.span_digits r2)
  | _ => d1
  end.

Fixpoint str_extract (s : string) : option string :=
  match s with
  | EmptyString => None
  | String c s' =>
      if PyStr.is_digit c then Some (match_number s) else str_extract s'
  end.

(** What the extraction returns: the text is cut as [pre ++ t ++ post]
    where [pre] holds no digit and [t], the match, is a non-empty run of
    digits [a], alone or followed by a point and a run of digits [b];
    the match cannot be extended by the first character of [post]. *)
Definition number_at (pre t post : string) : Prop :=
  PyStr.no_digit pre = true ∧
  ∃ a, a ≠ "" ∧ PyStr.all_digits a = true ∧
    ((t = a ∧ PyStr.starts_with PyStr.is_digit post = false
            ∧ PyStr.starts_with (λ c, bool_decide (c = "."%char)) post = false)
     ∨ (∃ b, t = a +:+ String "." b ∧ PyStr.all_digits b = true
            ∧ PyStr.starts_with PyStr.is_digit post = false)).

(** [pd.to_numeric(..., errors="coerce")] on the column the extraction
    leaves. It is given on unsigned decimal text, digits with an optional
    point and further digits, which is all the extraction can produce
    (see [to_numeric_extract]); a missing entry stays missing and any
    other text is coerced to missing.

    The value is the decimal that is written. This is the float the
    program gets for a text of fifteen digits at most (see
    [written_shortly]). For a longer text the program's float is a
    rounding of that decimal, and not always the nearest one; a number
    too large for a float, of more than three hundred digits, is coerced
    to missing. What is proved of longer texts is proved of the
    decimal written, and holds of the program only where rounding cannot
    change it, as for the sign. *)
Definition decimal_value (ip fp : string) : Qc :=
  Q2Qc (Z.of_N (PyStr.digits_value (ip +:+ fp)) # pow10 (String.length fp)).

Definition to_numeric (o : option string) : option Qc :=
  match o with
  | None => None
  | Some s =>
      let '(ip, rest) := PyStr.span_digits s in
      match ip, rest with
      | EmptyString, _ => None
      | _, EmptyString => Some (decimal_value ip "")
      | _, String "."%char fp =>
          if PyStr.all_digits fp then Some (decimal_value ip fp) else None
      | _, _ => None
      end
  end.

Definition nonneg_or_null (o : option Qc) : Prop :=
  match o with
  | None => True
  | Some q => (0 ≤ q)%Qc
  end.

(** One cell of a declared numeric column. *)
Definition coerce_numeric (c : cell) : option Qc :=
  to_numeric (str_extract (astype_str c)).

(** The pass/fail column: [.astype(str).str.strip().str.upper()] followed by
    [.map({"Y": True, "N": False})]. *)
Definition passed_token (c : cell) : string :=
  PyStr.upper (PyStr.strip (astype_str c)).

Definition map_passed (s : string) : option bool :=
  if String.eqb s "Y" then Some true
  else if String.eqb s "N" then Some false
  else None.

Definition decode_passed (c : cell) : option bool :=
  map_passed (passed_token c).

(** ** The loader: [auto_load_excel] and [load_and_clean_excel] *)

(** A row of a source sheet, one cell per column the program reads. *)
Record raw_row : Type := RawRow {
  raw_Math : cell;
  raw_English : cell;
  raw_Science : cell;
  raw_History : cell;
  raw_Attendance : cell;
  raw_ProjectScore : cell;
  raw_IncomeStudent : cell;
  raw_Passed : cell;
  raw_Cohort : cell
}.

(** A workbook as [pd.read_excel(..., sheet_name=None)] returns it: the
    sheets in order, each under its name. *)
Definition sheet : Type := (string * list raw_row)%type.
Definition workbook : Type := list sheet.

(** A row of the cleaned, merged frame. *)
Record record : Type := mk_record {
  Track : cell;
  Math : option Qc;
  English : option Qc;
  Science : option Qc;
  History : option Qc;
  Attendance : option Qc;
  ProjectScore : option Qc;
  IncomeStudent : bool;
  Passed : option bool;
  Cohort : cell
}.

(** [files] are the matches of the glob, each with its content; the
    program sorts the names and reads the last one. *)
Definition later_file (best f : string * workbook) : string * workbook :=
  if String.leb (fst best) (fst f) then f else best.

Definition auto_load_excel (files : list (string * workbook)) : except workbook :=
  match files with
  | [] => raise FileNotFoundError
  | f :: fs => ret (snd (foldl later_file f fs))
  end.

(** The body of the loop over the sheets, for one row: the label is
    attached first, the missing tokens are replaced in every column, then
    the numeric columns, the income flag and the pass/fail column are
    converted. *)
Definition clean_row (track_name : string) (r : raw_row) : except record :=
  let track := replace (PyStr track_name) in
  income ←! astype_bool (replace (raw_IncomeStudent r));
  ret {| Track := track;
         Math := coerce_numeric (replace (raw_Math r));
         English := coerce_numeric (replace (raw_English r));
         Science := coerce_numeric (replace (raw_Science r));
         History := coerce_numeric (replace (raw_History r));
         Attendance := coerce_numeric (replace (raw_Attendance r));
         ProjectScore := coerce_numeric (replace (raw_ProjectScore r));
         IncomeStudent := income;
         Passed := decode_passed (replace (raw_Passed r));
         Cohort := replace (raw_Cohort r) |}.

Definition clean_sheet (s : sheet) : except (list record) :=
  for_each (clean_row (fst s)) (snd s).

(** [pd.concat(all_dfs, ignore_index=True)]: the rows of the sheets one
    after the other. The cells are kept as they are. pandas gives each
    column of the result one type, so that where one sheet holds a cohort
    as the integer 2024 and another as the float 2024.0 the program has
    one cohort and the model two; tracks are text and are not concerned. *)
Definition pd_concat (all_dfs : list (list record)) : except (list record) :=
  match all_dfs with
  | [] => raise ValueError
  | _ => ret (concat all_dfs)
  end.

Definition clean_sheets (sheets : workbook) : except (list record) :=
  all_dfs ←! for_each clean_sheet sheets;
  pd_concat all_dfs.

Definition load_and_clean_excel (files : list (string * workbook))
  : except (list record) :=
  sheets ←! auto_load_excel files;
  clean_sheets sheets.

(** ** The aggregator: [compute_statistics] *)

Global Instance pyfloat_eq_dec : EqDecision pyfloat.
Proof. solve_decision. Defined.

Global Instance cell_eq_dec : EqDecision cell.
Proof. solve_decision. Defined.

Global Instance pyfloat_countable : Countable pyfloat.
Proof.
  refine (inj_countable'
            (λ f, (float_neg f, float_digits f, float_decpt f))
            (λ t, PyFloatOf t.1.1 t.1.2 t.2) _).
  by intros [].
Defined.

Definition cell_to_sum (c : cell)
  : unit + (unit + (bool + (Z + (pyfloat + string)))) :=
  match c with
  | NaN => inl ()
  | NA => inr (inl ())
  | PyBool b => inr (inr (inl b))
  | PyInt z => inr (inr (inr (inl z)))
  | PyFloat f => inr (inr (inr (inr (inl f))))
  | PyStr s => inr (inr (inr (inr (inr s))))
  end.

Definition cell_of_sum (x : unit + (unit + (bool + (Z + (pyfloat + string)))))
  : cell :=
  match x with
  | inl _ => NaN
  | inr (inl _) => NA
  | inr (inr (inl b)) => PyBool b
  | inr (inr (inr (inl z))) => PyInt z
  | inr (inr (inr (inr (inl f)))) => PyFloat f
  | inr (inr (inr (inr (inr s)))) => PyStr s
  end.

Global Instance cell_countable : Countable cell.
Proof.
  refine (inj_countable' cell_to_sum cell_of_sum _).
  by intros [].
Defined.

(** [mean] of a column: nulls are skipped, and the mean of no value is
    null. *)
Definition dropna {A} (col : list (option A)) : list A := omap id col.

Definition sum_Qc (l : list Qc) : Qc := foldr Qcplus 0%Qc l.

Definition Qc_of_nat (n : nat) : Qc := Qc_of_Z (Z.of_nat n).

(** The mean as an exact rational. The program adds and divides floats:
    its mean is a rounding of this one, and can leave the range of the
    values by a unit in the last place. The mean of pass/fail values, a
    count divided by a count, stays between 0 and 1 in both. *)
Definition average (xs : list Qc) : Qc :=
  (sum_Qc xs / Qc_of_nat (length xs))%Qc.

Definition mean (col : list (option Qc)) : option Qc :=
  match dropna col with
  | [] => None
  | xs => Some (average xs)
  end.

(** The pass/fail column as numbers: [True] is 1 and [False] is 0. *)
Definition bool_number (b : bool) : Qc := if b then 1%Qc else 0%Qc.

Definition passed_column (rows : list record) : list (option Qc) :=
  fmap bool_number <$> (Passed <$> rows).

(** Among the pass/fail values that are known, the share of passes; null
    when none is known. *)
Definition share_of_passes (passed : list (option bool)) : option Qc :=
  match dropna passed with
  | [] => None
  | known =>
      Some (Qc_of_nat (length (filter (λ b, b = true) known))
            / Qc_of_nat (length known))%Qc
  end.

(** [count] of a column: the entries that are not null. *)
Definition count_cells (col : list cell) : nat :=
  length (filter (λ c, is_null c = false) col).

(** [df.groupby(key)]: the rows of each key in their order; rows whose key
    is null belong to no group. *)
Definition group_key (c : cell) : option cell :=
  if is_null c then None else Some c.

Definition groupby (key : record → cell) (df : list record)
  : gmap cell (list record) :=
  foldr (λ r groups,
           match group_key (key r) with
           | None => groups
           | Some k => <[k := r :: default [] (groups !! k)]> groups
           end) ∅ df.

(** The rows of one group. *)
Definition group_rows (key : record → cell) (df : list record) (k : cell)
  : list record :=
  filter (λ r, group_key (key r) = Some k) df.

(** One row of a grouped table. *)
Record agg_row : Type := AggRow {
  Students : nat;
  MathAvg : option Qc;
  EnglishAvg : option Qc;
  ScienceAvg : option Qc;
  HistoryAvg : option Qc;
  AttendanceAvg : option Qc;
  ProjectAvg : option Qc;
  PassRate : option Qc
}.

Definition agg (rows : list record) : agg_row :=
  {| Students := count_cells (Track <$> rows);
     MathAvg := mean (Math <$> rows);
     EnglishAvg := mean (English <$> rows);
     ScienceAvg := mean (Science <$> rows);
     HistoryAvg := mean (History <$> rows);
     AttendanceAvg := mean (Attendance <$> rows);
     ProjectAvg := mean (ProjectScore <$> rows);
     PassRate := mean (passed_column rows) |}.

Definition groupby_agg (key : record → cell) (df : list record)
  : gmap cell agg_row :=
  agg <$> groupby key df.

(** The numeric columns with the column of the grouped table that holds
    their mean. *)
Definition numeric_columns
  : list ((record → option Qc) * (agg_row → option Qc)) :=
  [ (Math, MathAvg); (English, EnglishAvg); (Science, ScienceAvg);
    (History, HistoryAvg); (Attendance, AttendanceAvg);
    (ProjectScore, ProjectAvg) ].

(** [df.agg({...: "mean"})] over the whole frame. *)
Record global_row : Type := GlobalRow {
  g_Math : option Qc;
  g_English : option Qc;
  g_Science : option Qc;
  g_History : option Qc;
  g_Attendance : option Qc;
  g_ProjectScore : option Qc;
  g_Passed : option Qc
}.

Definition global_agg (df : list record) : global_row :=
  {| g_Math := mean (Math <$> df);
     g_English := mean (English <$> df);
     g_Science := mean (Science <$> df);
     g_History := mean (History <$> df);
     g_Attendance := mean (Attendance <$> df);
     g_ProjectScore := mean (ProjectScore <$> df);
     g_Passed := mean (passed_column df) |}.

(** Pearson correlation. The coefficient is [pearson_cov / sqrt pearson_var]
    with [pearson_var] the product of the two sums of squared deviations;
    the square root is not taken in the model. *)
Record pearson : Type := Pearson {
  pearson_cov : Qc;
  pearson_var : Qc
}.

Definition complete_pair (p : option Qc * option Qc) : option (Qc * Qc) :=
  match p with
  | (Some x, Some y) => Some (x, y)
  | _ => None
  end.

Definition complete_pairs (xs ys : list (option Qc)) : list (Qc * Qc) :=
  omap complete_pair (zip xs ys).

Definition deviations (xs : list Qc) : list Qc :=
  (λ x, x - average xs)%Qc <$> xs.

Definition sum_products (xs ys : list Qc) : Qc :=
  sum_Qc (zip_with Qcmult xs ys).

(** Pearson's coefficient of a list of observations: undefined for no
    observation and when the divisor is zero. *)
Definition pearson_of (ps : list (Qc * Qc)) : option pearson :=
  match ps with
  | [] => None
  | _ =>
      let dx := deviations ps.*1 in
      let dy := deviations ps.*2 in
      let var := (sum_products dx dx * sum_products dy dy)%Qc in
      if decide (var = 0%Qc) then None
      else Some {| pearson_cov := sum_products dx dy; pearson_var := var |}
  end.

(** One entry of [DataFrame.corr()]: the observations are the rows where
    both columns are present ([min_periods = 1]); an undefined coefficient
    is NaN. *)
Definition nancorr (xs ys : list (option Qc)) : option pearson :=
  pearson_of (complete_pairs xs ys).

Definition corr (columns : list (list (option Qc)))
  : list (list (option pearson)) :=
  (λ a, (λ b, nancorr a b) <$> columns) <$> columns.

Definition iloc {A} (m : list (list A)) (i j : nat) : except A :=
  match m !! i with
  | None => raise IndexError
  | Some row =>
      match row !! j with
      | None => raise IndexError
      | Some a => ret a
      end
  end.

(** A column that takes one value only. *)
Definition constant (xs : list Qc) : Prop := ∃ c, Forall (λ x, x = c) xs.

(** The sum of the squared deviations from the mean. *)
Definition sum_squares (xs : list Qc) : Qc :=
  sum_products (deviations xs) (deviations xs).

(** The observations of a set of rows: attendance and project score of the
    rows that have both. *)
Definition observations (rows : list record) : list (Qc * Qc) :=
  omap (λ r, complete_pair (Attendance r, ProjectScore r)) rows.

(** [Series.unique()]: the distinct values in order of first appearance,
    the null marker among them. *)
Fixpoint unique (l : list cell) : list cell :=
  match l with
  | [] => []
  | c :: l' => c :: filter (λ d, d ≠ c) (unique l')
  end.

(** [df["Track"] == track], one element: a comparison with a null on
    either side is false. *)
Definition track_eq (c track : cell) : bool :=
  negb (is_null c) && negb (is_null track) && bool_decide (c = track).

(** [df[df["Track"] == track]] *)
Definition track_rows (df : list record) (track : cell) : list record :=
  filter (λ r, track_eq (Track r) track = true) df.

Fixpoint corr_loop (tracks : list cell) (df : list record)
    (corr_list : gmap cell (option pearson))
  : except (gmap cell (option pearson)) :=
  match tracks with
  | [] => ret corr_list
  | track :: rest =>
      let subdf := track_rows df track in
      c ←! iloc (corr [Attendance <$> subdf; ProjectScore <$> subdf]) 0 1;
      corr_loop rest df (<[track := c]> corr_list)
  end.

(** The correlation computed for one track. *)
Definition track_corr (df : list record) (track : cell) : option pearson :=
  nancorr (Attendance <$> track_rows df track)
          (ProjectScore <$> track_rows df track).

(** The values held under the keys of [stats]. *)
Inductive view : Type :=
| Table (t : gmap cell agg_row)
| Lists (t : gmap cell (list (option Qc)))
| Series (s : gmap cell (option Qc))
| CorrSeries (s : gmap cell (option pearson))
| Global (g : global_row).

(** [df.groupby("Track")["History"].apply(list)] and
    [df.groupby("Track")["Math"].mean()] *)
Definition groupby_lists (key : record → cell) (col : record → option Qc)
    (df : list record) : gmap cell (list (option Qc)) :=
  (λ rows : list record, col <$> rows) <$> groupby key df.

Definition groupby_mean (key : record → cell) (col : record → option Qc)
    (df : list record) : gmap cell (option Qc) :=
  (λ rows : list record, mean (col <$> rows)) <$> groupby key df.

Definition compute_statistics (df : list record) : except (gmap string view) :=
  let stats : gmap string view := ∅ in
  let track_stats := groupby_agg Track df in
  let stats := <["track" := Table track_stats]> stats in
  let cohort_stats := groupby_agg Cohort df in
  let stats := <["cohort" := Table cohort_stats]> stats in
  let income_stats := groupby_agg (λ r, PyBool (IncomeStudent r)) df in
  let stats := <["income" := Table income_stats]> stats in
  let stats :=
    <["history_by_track" := Lists (groupby_lists Track History df)]> stats in
  let math_comparison := groupby_mean Track Math df in
  let stats := <["math_comparison" := Series math_comparison]> stats in
  corr_list ←! corr_loop (unique (Track <$> df)) df ∅;
  let stats := <["attendance_project_corr" := CorrSeries corr_list]> stats in
  let global_stats := global_agg df in
  let stats := <["global" := Global global_stats]> stats in
  ret stats.

(** ** Sample data *)

Module Sample.

(** A row with the given mathematics mark, pass/fail value, attendance
    and project score; the other marks are empty cells. *)
Definition row (math passed attendance project : cell) : raw_row :=
  {| raw_Math := math;
     raw_English := NaN;
     raw_Science := NaN;
     raw_History := NaN;
     raw_Attendance := attendance;
     raw_ProjectScore := project;
     raw_IncomeStudent := PyInt 1;
     raw_Passed := passed;
     raw_Cohort := PyStr "2024" |}.

(** Two sheets: "A" with marks 80 and 90, one pass and one fail, and "B"
    with nothing known. *)
Definition two_tracks : workbook :=
  [ ("A", [ row (PyInt 80) (PyStr "Y") (PyInt 90) (PyInt 10);
            row (PyInt 90) (PyStr "N") (PyInt 80) (PyInt 20) ]);
    ("B", [ row NaN (PyStr "N/A") NaN NaN;
            row NaN (PyStr "N/A") NaN NaN ]) ].

(** A row whose income flag is the token "Waived". *)
Definition waived_income : raw_row :=
  {| raw_Math := PyInt 80;
     raw_English := PyInt 75;
     raw_Science := PyInt 70;
     raw_History := PyInt 65;
     raw_Attendance := PyFloat (PyFloatOf false 925 2);
     raw_ProjectScore := PyInt 15;
     raw_IncomeStudent := PyStr "Waived";
     raw_Passed := PyStr "Y";
     raw_Cohort := PyStr "2024" |}.

(** A workbook whose only sheet is named "NA". *)
Definition sheet_named_NA : workbook :=
  [ ("NA", [ row (PyInt 80) (PyStr "Y") (PyInt 90) (PyInt 10) ]) ].

(** The cleaned rows of [two_tracks], written out. *)
Definition cleaned (track : string) (math : option Qc) (passed : option bool)
    (attendance project : option Qc) : record :=
  {| Track := PyStr track;
     Math := math;
     English := None;
     Science := None;
     History := None;
     Attendance := attendance;
     ProjectScore := project;
     IncomeStudent := true;
     Passed := passed;
     Cohort := PyStr "2024" |}.

(** The frame that cleaning [two_tracks] gives. *)
Definition frame : list record :=
  [ cleaned "A" (Some (Qc_of_Z 80)) (Some true)
      (Some (Qc_of_Z 90)) (Some (Qc_of_Z 10));
    cleaned "A" (Some (Qc_of_Z 90)) (Some false)
      (Some (Qc_of_Z 80)) (Some (Qc_of_Z 20));
    cleaned "B" None None None None;
    cleaned "B" None None None None ].

(** A frame with gaps: of the five rows of track "A", three have a known
    pass/fail value, two of them a pass, and three have both an attendance
    and a project score. *)
Definition with_gaps : list record :=
  [ cleaned "A" (Some (Qc_of_Z 80)) (Some true)
      (Some (Qc_of_Z 90)) (Some (Qc_of_Z 10));
    cleaned "A" (Some (Qc_of_Z 90)) (Some false)
      (Some (Qc_of_Z 80)) (Some (Qc_of_Z 20));
    cleaned "A" None None (Some (Qc_of_Z 70)) None;
    cleaned "A" None (Some true) None (Some (Qc_of_Z 30));
    cleaned "A" None None (Some (Qc_of_Z 60)) (Some (Qc_of_Z 50));
    cleaned "B" None None None None ].

Definition nothing_known (students : nat) : agg_row :=
  {| Students := students;
     MathAvg := None;
     EnglishAvg := None;
     ScienceAvg := None;
     HistoryAvg := None;
     AttendanceAvg := None;
     ProjectAvg := None;
     PassRate := None |}.

End Sample.

(** ** Ranges *)

(** A value that, when known, lies between two bounds. *)
Definition within (lo hi : Qc) (o : option Qc) : Prop :=
  from_option (λ x, lo ≤ x ≤ hi)%Qc True o.

(** A row whose track is not null. *)
Definition tracked (r : record) : Prop := is_null (Track r) = false.

(** The students counted in a grouped view, all groups together. *)
Definition total_students (t : gmap cell agg_row) : nat :=
  sum_list_with (λ kr : cell * agg_row, Students kr.2) (map_to_list t).

(** The rows of a list whose track is not null, counted. *)
Definition tracked_in (rows : list record) : nat :=
  length (filter tracked rows).

(** ** Alerts: [generate_performance_alerts] *)

(** The exceptions of the shell: those of the loader and the aggregator,
    a missing key, a missing method, and the end of the input. *)
Inductive shell_exn : Type :=
| Raised_by_core (e : exn)
| KeyError
| AttributeError
| EOFError.

(** The lines that [generate_performance_alerts] prints. An alert names
    the kind of group ("Track" or "Cohort"), the group and the value. *)
Inductive line : Type :=
| Blank_line
| Alerts_banner
| Low_math (what : string) (key : cell) (avg : Qc)
| Low_pass_rate (what : string) (key : cell) (rate : Qc)
| Done_line
| Invalid_mode.

(** The thresholds 70 and 0.6. *)
Definition math_threshold : Qc := Qc_of_Z 70.
Definition pass_threshold : Qc := Q2Qc (6 # 10).

(** The two tests of a row: a comparison with a null mean is false. *)
Definition row_alerts (what : string) (kr : cell * agg_row) : list line :=
  let math_avg := MathAvg kr.2 in
  let pass_rate := PassRate kr.2 in
  (match math_avg with
   | Some m =>
       if bool_decide (m < math_threshold)%Qc then [Low_math what kr.1 m]
       else []
   | None => []
   end
   ++ match pass_rate with
      | Some p =>
          if bool_decide (p < pass_threshold)%Qc
          then [Low_pass_rate what kr.1 p] else []
      | None => []
      end)%list.

(** The rows of [table.iterrows()], each with its key. The rows come in
    the order of the map, which is not that of the table: only which lines
    are printed is modelled, not their order. *)
Definition table_alerts (what : string) (table : gmap cell agg_row)
  : list line :=
  flat_map (row_alerts what) (map_to_list table).

(** The lines printed, and the exception that ends the call if any. *)
Definition alerts_for (stats : gmap string view) (name what : string)
  : list line * option shell_exn :=
  match stats !! name with
  | None => ([], Some KeyError)
  | Some (Table table) => ((table_alerts what table ++ [Done_line])%list, None)
  | Some _ => ([], Some AttributeError)
  end.

Definition generate_performance_alerts (stats : gmap string view)
    (mode : string) : list line * option shell_exn :=
  let header := [Blank_line; Alerts_banner; Blank_line] in
  let '(lines, raised) :=
    if String.eqb mode "track" then alerts_for stats "track" "Track"
    else if String.eqb mode "cohort" then alerts_for stats "cohort" "Cohort"
    else ([Invalid_mode], None) in
  ((header ++ lines)%list, raised).

(** ** The interactive shell *)

Inductive menu : Type :=
| Main_menu
| Track_menu
| Cohort_menu
| Income_menu
| Visuals_menu
| Export_menu
| Alerts_menu.

(** The prompts of [input]: for a choice in the main menu, for a choice in
    a submenu, for ENTER after an action, for ENTER after an invalid
    choice. The wording of the last two varies from menu to menu and is
    not kept. *)
Inductive prompt : Type :=
| Enter_your_choice
| Choice
| Press_enter
| Invalid_choice.

(** What the shell does that can be seen: the screen is cleared, a menu or
    a view is printed, a line is asked for, [generate_visuals] or
    [export_outputs] is called. *)
Inductive event : Type :=
| Cleared
| Menu_shown (m : menu)
| Asked (p : prompt)
| View_printed (v : view)
| Pass_rates_printed (rates : gmap cell (option Qc))
| Line_printed (l : line)
| Called_generate_visuals (df : list record)
| Called_export_outputs (df : list record) (stats : gmap string view)
| Goodbye.

(** A computation reads lines from those typed and leaves a trace; it
    returns with the lines not yet read, or raises. The loops run on fuel,
    one unit for each turn. *)
Inductive outcome (A : Type) : Type :=
| Returns (a : A) (rest : list string)
| Raises (e : shell_exn)
| Out_of_fuel.

Arguments Returns {A} a rest.
Arguments Raises {A} e.
Arguments Out_of_fuel {A}.

Definition io (A : Type) : Type := list string → list event * outcome A.

Definition io_ret {A} (a : A) : io A := λ ins, ([], Returns a ins).

Definition io_raise {A} (e : shell_exn) : io A := λ _, ([], Raises e).

Definition io_bind {A B} (c : io A) (k : A → io B) : io B :=
  λ ins,
    match c ins with
    | (tr, Returns a rest) => let '(tr', o) := k a rest in (tr ++ tr', o)%list
    | (tr, Raises e) => (tr, Raises e)
    | (tr, Out_of_fuel) => (tr, Out_of_fuel)
    end.

Notation "x ←? c ; k" := (io_bind c (λ x, k))
  (at level 100, c at next level, right associativity, only parsing).
Notation "c ;? k" := (io_bind c (λ _, k))
  (at level 100, k at level 200, right associativity, only parsing).

Definition emit (e : event) : io unit := λ ins, ([e], Returns () ins).

(** A call of a collaborator that is not modelled: the call is seen, and
    it returns or raises as [raised] says. *)
Definition call (e : event) (raised : option shell_exn) : io unit :=
  λ ins,
    ([e],
     match raised with
     | None => Returns () ins
     | Some x => Raises x
     end).

(** [input(prompt)]: the next line typed; at the end of the input,
    [EOFError]. *)
Definition input (p : prompt) : io string :=
  λ ins,
    match ins with
    | [] => ([Asked p], Raises EOFError)
    | l :: rest => ([Asked p], Returns l rest)
    end.

(** [print(stats[name])] and [print(stats[name]["PassRate"])] *)
Definition print_view (stats : gmap string view) (name : string) : io unit :=
  match stats !! name with
  | Some v => emit (View_printed v)
  | None => io_raise KeyError
  end.

Definition print_pass_rates (stats : gmap string view) (name : string)
  : io unit :=
  match stats !! name with
  | Some (Table t) => emit (Pass_rates_printed (PassRate <$> t))
  | _ => io_raise KeyError
  end.

Definition print_alerts (stats : gmap string view) (mode : string) : io unit :=
  λ ins,
    let '(lines, raised) := generate_performance_alerts stats mode in
    (Line_printed <$> lines,
     match raised with
     | None => Returns () ins
     | Some e => Raises e
     end).

(** The loop of a submenu: the menu is shown and a choice is read; an
    action is followed by a wait for ENTER, "0" leaves the loop, and
    anything else is answered by a wait for ENTER. *)
Fixpoint submenu (m : menu) (actions : string → option (io unit))
    (fuel : nat) : io unit :=
  match fuel with
  | O => λ _, ([], Out_of_fuel)
  | S fuel' =>
      emit Cleared ;?
      emit (Menu_shown m) ;?
      choice ←? input Choice ;
      match actions choice with
      | Some action =>
          action ;? input Press_enter ;? submenu m actions fuel'
      | None =>
          if String.eqb choice "0" then io_ret ()
          else input Invalid_choice ;? submenu m actions fuel'
      end
  end.

Section Shell.
(** The globals [df] and [stats] of the script. *)
Context (df : list record) (stats : gmap string view).
(** The plots and the files of [generate_visuals] and [export_outputs] are
    not modelled: of each call only the exception it raises, if any, is
    kept. Neither reads a line. *)
Context (generate_visuals : list record → option shell_exn).
Context (export_outputs : list record → gmap string view → option shell_exn).

Definition track_actions (choice : string) : option (io unit) :=
  if String.eqb choice "1" then Some (print_view stats "track")
  else if String.eqb choice "2" then Some (print_view stats "math_comparison")
  else if String.eqb choice "3"
  then Some (print_view stats "attendance_project_corr")
  else if String.eqb choice "4" then Some (print_view stats "history_by_track")
  else None.

Definition cohort_actions (choice : string) : option (io unit) :=
  if String.eqb choice "1" then Some (print_view stats "cohort")
  else if String.eqb choice "2" then Some (print_pass_rates stats "cohort")
  else None.

Definition income_actions (choice : string) : option (io unit) :=
  if String.eqb choice "1" then Some (print_view stats "income")
  else if String.eqb choice "2" then Some (print_pass_rates stats "income")
  else None.

Definition visuals_actions (choice : string) : option (io unit) :=
  if String.eqb choice "1"
  then Some (call (Called_generate_visuals df) (generate_visuals df))
  else None.

Definition export_actions (choice : string) : option (io unit) :=
  if String.eqb choice "1"
  then Some (call (Called_export_outputs df stats)
               (export_outputs df stats))
  else None.

Definition alerts_actions (choice : string) : option (io unit) :=
  if String.eqb choice "1" then Some (print_alerts stats "track")
  else if String.eqb choice "2" then Some (print_alerts stats "cohort")
  else None.

Definition track_submenu : nat → io unit := submenu Track_menu track_actions.
Definition cohort_submenu : nat → io unit :=
  submenu Cohort_menu cohort_actions.
Definition income_submenu : nat → io unit :=
  submenu Income_menu income_actions.
Definition visuals_submenu : nat → io unit :=
  submenu Visuals_menu visuals_actions.
Definition export_dashboard_submenu : nat → io unit :=
  submenu Export_menu export_actions.
Definition performance_alerts_submenu : nat → io unit :=
  submenu Alerts_menu alerts_actions.

(** The submenu that a choice of the main menu opens. *)
Definition main_choice (choice : string) : option (nat → io unit) :=
  if String.eqb choice "1" then Some track_submenu
  else if String.eqb choice "2" then Some cohort_submenu
  else if String.eqb choice "3" then Some income_submenu
  else if String.eqb choice "4" then Some visuals_submenu
  else if String.eqb choice "5" then Some export_dashboard_submenu
  else if String.eqb choice "6" then Some performance_alerts_submenu
  else None.

Fixpoint main_menu (fuel : nat) : io unit :=
  match fuel with
  | O => λ _, ([], Out_of_fuel)
  | S fuel' =>
      emit Cleared ;?
      emit (Menu_shown Main_menu) ;?
      choice ←? input Enter_your_choice ;
      match main_choice choice with
      | Some sub => sub fuel' ;? main_menu fuel'
      | None =>
          if String.eqb choice "0"
          then emit Cleared ;? emit Goodbye ;? io_ret ()
          else input Invalid_choice ;? main_menu fuel'
      end
  end.

End Shell.

(** A session at the menu: the loops run until a return or an exception.
    Each turn of a loop reads a line, so that one turn more than there are
    lines is fuel enough. *)
Definition session (df : list record) (stats : gmap string view)
    (generate_visuals : list record → option shell_exn)
    (export_outputs : list record → gmap string view → option shell_exn)
  : io unit :=
  λ ins,
    main_menu df stats generate_visuals export_outputs (S (length ins)) ins.

(** [main]: the frame is loaded, the statistics are computed, the menu is
    run. *)
Definition main (files : list (string * workbook))
    (generate_visuals : list record → option shell_exn)
    (export_outputs : list record → gmap string view → option shell_exn)
  : io unit :=
  λ ins,
    match load_and_clean_excel files with
    | inl e => ([], Raises (Raised_by_core e))
    | inr df =>
        match compute_statistics df with
        | inl e => ([], Raises (Raised_by_core e))
        | inr stats => session df stats generate_visuals export_outputs ins
        end
    end.

(** An action of a submenu reads nothing: it returns with the lines it was
    given, or raises. *)
Definition tame (a : io unit) : Prop :=
  ∀ ins,
    (∃ tr, a ins = (tr, Returns () ins)) ∨ (∃ tr e, a ins = (tr, Raises e)).

Definition all_tame (actions : string → option (io unit)) : Prop :=
  ∀ c a, actions c = Some a → tame a.

(** What a loop may end with when it is given more fuel than lines: it
    returns after reading a "0", leaving the lines that follow it, or it
    raises. *)
Definition left_by_zero {A} (ins : list string) (o : outcome A) : Prop :=
  match o with
  | Returns _ rest => ∃ pre, ins = (pre ++ "0" :: rest)%list
  | Raises _ => True
  | Out_of_fuel => False
  end.

Definition returned {A} (o : outcome A) : Prop :=
  match o with
  | Returns _ _ => True
  | _ => False
  end.

Definition raises_only {A} (P : shell_exn → Prop) (o : outcome A) : Prop :=
  match o with
  | Raises e => P e
  | _ => True
  end.

Definition all_raise_only (P : shell_exn → Prop)
    (actions : string → option (io unit)) : Prop :=
  ∀ c a ins, actions c = Some a → raises_only P (a ins).2.

Definition no_goodbye (a : io unit) : Prop := ∀ ins, Goodbye ∉ (a ins).1.

(** Statistics that hold the three tables and the three other views that
    the submenus print. *)
Definition complete (stats : gmap string view) : Prop :=
  (∀ name, name ∈ ["track"; "cohort"; "income"] →
     ∃ t, stats !! name = Some (Table t))
  ∧ (∀ name,
       name ∈ ["math_comparison"; "attendance_project_corr";
               "history_by_track"] →
       is_Some (stats !! name)).

(** The exceptions of a session on complete statistics: the end of the
    input, and what the two collaborators raise. *)
Definition session_exn (df : list record) (stats : gmap string view)
    (generate_visuals : list record → option shell_exn)
    (export_outputs : list record → gmap string view → option shell_exn)
    (e : shell_exn) : Prop :=
  e = EOFError ∨ generate_visuals df = Some e
  ∨ export_outputs df stats = Some e.

(** * Properties *)

(** ** Digit strings *)

Module PyStrFacts.
Import PyStr.

Lemma all_digits_app a b :
  all_digits (a +:+ b) = all_digits a && all_digits b.
Proof. induction a as [|c a IH]; simpl; [done|]. by rewrite IH, andb_assoc. Qed.

Lemma span_digits_all a :
  all_digits a = true → span_digits a = (a, "").
Proof.
  induction a as [|c a IH]; simpl; [done|].
  intros [Hc Ha]%andb_true_iff. by rewrite Hc, (IH Ha).
Qed.

(** The span of digits stops at the first character that is not one. *)
Lemma span_digits_stop a c r :
  all_digits a = true → is_digit c = false →
  span_digits (a +:+ String c r) = (a, String c r).
Proof.
  intros Ha Hc. induction a as [|d a IH]; simpl in *.
  - by rewrite Hc.
  - apply andb_true_iff in Ha as [Hd Ha]. by rewrite Hd, (IH Ha).
Qed.

Lemma span_digits_spec s :
  s = (span_digits s).1 +:+ (span_digits s).2
  ∧ all_digits (span_digits s).1 = true
  ∧ match (span_digits s).2 with
    | "" => True
    | String c _ => is_digit c = false
    end.
Proof.
  induction s as [|c s IH]; simpl; [done|].
  destruct (is_digit c) eqn:Hc; simpl; [|done].
  destruct (span_digits s) as [d r]; simpl in *.
  destruct IH as (-> & Hd & Hr). by rewrite Hc, Hd.
Qed.

Lemma digits_value_acc_app acc a b :
  digits_value_acc acc (a +:+ b) = digits_value_acc (digits_value_acc acc a) b.
Proof. revert acc. induction a as [|c a IH]; intros acc; simpl; [done|]. apply IH. Qed.

Lemma digits_value_acc_shift acc a :
  digits_value_acc acc a
  = (acc * N.pos (pow10 (String.length a)) + digits_value a)%N.
Proof.
  unfold digits_value. revert acc.
  induction a as [|c a IH]; intros acc; simpl digits_value_acc.
  - simpl. lia.
  - rewrite (IH (10 * acc + digit_of c)%N), (IH (10 * 0 + digit_of c)%N).
    change (String.length (String c a)) with (S (String.length a)).
    change (pow10 (S (String.length a)))
      with (10 * pow10 (String.length a))%positive.
    lia.
Qed.

Lemma digits_value_app a b :
  digits_value (a +:+ b)
  = (digits_value a * N.pos (pow10 (String.length b)) + digits_value b)%N.
Proof.
  unfold digits_value at 1. rewrite digits_value_acc_app.
  apply digits_value_acc_shift.
Qed.

Lemma all_digits_zeros n : all_digits (zeros n) = true.
Proof. induction n; simpl; auto. Qed.

Lemma length_zeros n : String.length (zeros n) = n.
Proof. induction n; simpl; auto. Qed.

Lemma digits_value_zeros n : digits_value (zeros n) = 0%N.
Proof.
  unfold digits_value. induction n as [|n IH]; simpl; [done|]. exact IH.
Qed.

(** Printing a number gives digits only, at least one, and reading them
    back gives the number. *)
Lemma all_digits_string_of_uint d :
  all_digits (NilEmpty.string_of_uint d) = true.
Proof. induction d; simpl; auto. Qed.

Lemma string_of_uint_acc d (acc : positive) :
  digits_value_acc (N.pos acc) (NilEmpty.string_of_uint d)
  = N.pos (Pos.of_uint_acc d acc).
Proof.
  revert acc. induction d; intros acc; simpl; [done|..];
    (etrans; [|apply IHd]); f_equal; unfold digit_of, code; simpl; lia.
Qed.

Lemma digits_value_string_of_uint d :
  digits_value (NilEmpty.string_of_uint d) = N.of_uint d.
Proof.
  unfold digits_value, N.of_uint.
  induction d; simpl; [done|exact IHd|..];
    apply (string_of_uint_acc d).
Qed.

Lemma all_digits_str_of_N n : all_digits (str_of_N n) = true.
Proof. apply all_digits_string_of_uint. Qed.

Lemma digits_value_str_of_N n : digits_value (str_of_N n) = n.
Proof.
  unfold str_of_N. rewrite digits_value_string_of_uint.
  apply DecimalN.Unsigned.of_to.
Qed.

Lemma str_of_N_nonempty n : str_of_N n ≠ "".
Proof.
  unfold str_of_N. intros H.
  assert (Hu : NilEmpty.uint_of_string (NilEmpty.string_of_uint (N.to_uint n))
               = Some (N.to_uint n)) by apply NilEmpty.usu.
  rewrite H in Hu. simpl in Hu. injection Hu as Hu.
  destruct n as [|p]; [done|].
  simpl in Hu. symmetry in Hu.
  pose proof (DecimalPos.Unsigned.to_uint_nonnil p). contradiction.
Qed.
End PyStrFacts.

Import PyStr PyStrFacts.

Create HintDb digits.
#[local] Hint Resolve all_digits_str_of_N all_digits_zeros str_of_N_nonempty
  : digits.

(** Case analysis on the 256 characters. *)
Ltac ascii_cases c := destruct c as [[] [] [] [] [] [] [] []].

(** ** Extraction and reading of numbers *)

Lemma string_app_cons x (a b : string) : String x a +:+ b = String x (a +:+ b).
Proof. reflexivity. Qed.

Lemma string_app_nil (b : string) : "" +:+ b = b.
Proof. reflexivity. Qed.

Lemma string_app_assoc (a b c : string) : (a +:+ b) +:+ c = a +:+ (b +:+ c).
Proof.
  induction a as [|x a IH]; [done|]. by rewrite !string_app_cons, IH.
Qed.

Lemma string_app_empty_r (a : string) : a +:+ "" = a.
Proof. induction a as [|x a IH]; [done|]. by rewrite string_app_cons, IH. Qed.

Lemma string_length_app (a b : string) :
  String.length (a +:+ b) = (String.length a + String.length b)%nat.
Proof.
  induction a as [|x a IH]; [done|]. rewrite string_app_cons. simpl. by rewrite IH.
Qed.

(** *** The extraction pattern *)

Lemma match_number_int a r :
  all_digits a = true →
  starts_with is_digit r = false →
  starts_with (λ c, bool_decide (c = "."%char)) r = false →
  match_number (a +:+ r) = a.
Proof.
  intros Ha Hd Hp. unfold match_number. destruct r as [|c r].
  - rewrite string_app_empty_r, (span_digits_all a Ha). done.
  - simpl in Hd, Hp. rewrite (span_digits_stop a c r Ha Hd).
    apply bool_decide_eq_false in Hp.
    ascii_cases c; try done.
Qed.

Lemma match_number_frac a b r :
  all_digits a = true → all_digits b = true →
  starts_with is_digit r = false →
  match_number (a +:+ String "." (b +:+ r)) = a +:+ String "." b.
Proof.
  intros Ha Hb Hr. unfold match_number.
  rewrite (span_digits_stop a "." _ Ha eq_refl). simpl. do 2 f_equal.
  destruct r as [|c r].
  - by rewrite string_app_empty_r, (span_digits_all b Hb).
  - by rewrite (span_digits_stop b c r Hb Hr).
Qed.

Lemma str_extract_skip pre s :
  no_digit pre = true → str_extract (pre +:+ s) = str_extract s.
Proof.
  induction pre as [|c pre IH]; simpl; [done|].
  intros [Hc Hp]%andb_true_iff. apply negb_true_iff in Hc. rewrite Hc. auto.
Qed.

Lemma str_extract_None s : str_extract s = None ↔ no_digit s = true.
Proof.
  induction s as [|c s IH]; simpl; [done|].
  destruct (is_digit c); simpl; [split; discriminate | exact IH].
Qed.

Lemma match_point_ne {A} x r (f : string → A) (d : A) :
  x ≠ "."%char →
  match String x r with
  | String "."%char r2 => f r2
  | _ => d
  end = d.
Proof. intros Hx. ascii_cases x; done. Qed.

Lemma match_number_spec c s :
  is_digit c = true →
  ∃ post, String c s = match_number (String c s) +:+ post
          ∧ number_at "" (match_number (String c s)) post.
Proof.
  intros Hc. unfold match_number.
  destruct (span_digits_spec (String c s)) as (Heq & Hd & Hr).
  destruct (span_digits (String c s)) as [a r] eqn:Hsp. simpl in Heq, Hd, Hr.
  assert (Ha : a ≠ "").
  { simpl in Hsp. rewrite Hc in Hsp. destruct (span_digits s).
    by injection Hsp as <- _. }
  destruct r as [|x r].
  - exists "". split; [by rewrite Heq, !string_app_empty_r|].
    split; [done|]. exists a. repeat split; try done. by left.
  - destruct (decide (x = "."%char)) as [->|Hx].
    + destruct (span_digits_spec r) as (Heq' & Hd' & Hr').
      destruct (span_digits r) as [b r'] eqn:Hsp'. simpl in Heq', Hd', Hr'.
      exists r'. split.
      { rewrite Heq at 1. rewrite Heq' at 1.
        by rewrite !string_app_assoc, !string_app_cons, string_app_nil. }
      split; [done|]. exists a. repeat split; try done. right.
      exists b. repeat split; try done. by destruct r'.
    + cbv beta iota zeta.
      rewrite (match_point_ne x r (λ r2, a +:+ "." +:+ (span_digits r2).1) a Hx).
      exists (String x r). split; [exact Heq|].
      split; [done|]. exists a. repeat split; try done. left.
      repeat split; try done. simpl. by apply bool_decide_eq_false.
Qed.

Lemma str_extract_spec s :
  match str_extract s with
  | None => no_digit s = true
  | Some t => ∃ pre post, s = pre +:+ t +:+ post ∧ number_at pre t post
  end.
Proof.
  induction s as [|c s IH]; simpl; [done|].
  destruct (is_digit c) eqn:Hc; simpl.
  - destruct (match_number_spec c s Hc) as (post & Heq & Hn).
    exists "", post. split; [exact Heq|exact Hn].
  - destruct (str_extract s) as [t|]; [|done].
    destruct IH as (pre & post & -> & Hpre & Hrest).
    exists (String c pre), post. split; [done|].
    split; [simpl; by rewrite Hc|exact Hrest].
Qed.

(** *** Reading the extracted text *)

Lemma to_numeric_int a :
  a ≠ "" → all_digits a = true →
  to_numeric (Some a) = Some (decimal_value a "").
Proof.
  intros Hne Ha. unfold to_numeric. rewrite (span_digits_all a Ha).
  by destruct a.
Qed.

Lemma to_numeric_frac a b :
  a ≠ "" → all_digits a = true → all_digits b = true →
  to_numeric (Some (a +:+ String "." b)) = Some (decimal_value a b).
Proof.
  intros Hne Ha Hb. unfold to_numeric.
  rewrite (span_digits_stop a "." b Ha eq_refl), Hb. by destruct a.
Qed.

(** Whatever the extraction returns is read as a number. *)
Lemma to_numeric_extract s t :
  str_extract s = Some t → ∃ q, to_numeric (Some t) = Some q.
Proof.
  intros Hs. pose proof (str_extract_spec s) as H. rewrite Hs in H.
  destruct H as (pre & post & _ & _ & a & Hne & Ha & [(-> & _)|(b & -> & Hb & _)]).
  - eexists. by apply to_numeric_int.
  - eexists. by apply to_numeric_frac.
Qed.

Lemma Q2Qc_nonneg (q : Q) : (0 <= q)%Q → (0 ≤ Q2Qc q)%Qc.
Proof.
  intros Hq. unfold Qcle. change (0 <= Qred q)%Q. by rewrite Qred_correct.
Qed.

Lemma decimal_value_nonneg a b : (0 ≤ decimal_value a b)%Qc.
Proof. apply Q2Qc_nonneg. unfold Qle. simpl. lia. Qed.

Lemma to_numeric_nonneg o q : to_numeric o = Some q → (0 ≤ q)%Qc.
Proof.
  unfold to_numeric. destruct o as [s|]; [|done].
  destruct (span_digits s) as [ip rest].
  destruct ip; [done|]. destruct rest as [|c fp].
  - intros [= <-]. apply decimal_value_nonneg.
  - ascii_cases c; try done.
    destruct (all_digits fp); [|done].
    intros [= <-]. apply decimal_value_nonneg.
Qed.

(** *** Numbers that are already numbers *)

Lemma str_extract_int a :
  a ≠ "" → all_digits a = true → str_extract a = Some a.
Proof.
  intros Hne Ha. destruct a as [|c a']; [done|].
  pose proof Ha as Hc. simpl in Hc. apply andb_true_iff in Hc as [Hc _].
  simpl. rewrite Hc. f_equal.
  rewrite <- (string_app_empty_r (String c a')) at 1.
  by apply match_number_int.
Qed.

Lemma str_extract_frac a b :
  a ≠ "" → all_digits a = true → all_digits b = true →
  str_extract (a +:+ String "." b) = Some (a +:+ String "." b).
Proof.
  intros Hne Ha Hb. destruct a as [|c a']; [done|].
  pose proof Ha as Hc. simpl in Hc. apply andb_true_iff in Hc as [Hc _].
  rewrite string_app_cons. simpl. rewrite Hc. f_equal.
  rewrite <- (string_app_empty_r b) at 1.
  rewrite <- string_app_cons. by apply match_number_frac.
Qed.

Lemma coerce_digits a :
  a ≠ "" → all_digits a = true →
  to_numeric (str_extract a) = Some (decimal_value a "").
Proof. intros. rewrite str_extract_int by done. by apply to_numeric_int. Qed.

Lemma coerce_point a b :
  a ≠ "" → all_digits a = true → all_digits b = true →
  to_numeric (str_extract (a +:+ String "." b)) = Some (decimal_value a b).
Proof. intros. rewrite str_extract_frac by done. by apply to_numeric_frac. Qed.

Lemma decimal_value_int n :
  decimal_value (str_of_N n) "" = Qc_of_Z (Z.of_N n).
Proof.
  unfold decimal_value. rewrite string_app_empty_r, digits_value_str_of_N.
  apply Qc_is_canon. simpl. apply Qred_correct.
Qed.

Lemma str_of_int_abs z :
  str_of_int z = (if (z <? 0)%Z then "-" else "") +:+ str_of_N (Z.to_N (Z.abs z)).
Proof. by destruct z. Qed.

(** A Python [int] is coerced to its absolute value. *)
Lemma coerce_numeric_int z :
  coerce_numeric (PyInt z) = Some (Qc_of_Z (Z.abs z)).
Proof.
  unfold coerce_numeric. simpl astype_str. rewrite str_of_int_abs.
  set (n := Z.to_N (Z.abs z)).
  assert (Hn : Z.abs z = Z.of_N n) by (unfold n; lia). rewrite Hn.
  rewrite <- decimal_value_int.
  destruct (z <? 0)%Z.
  - rewrite (str_extract_skip "-" _ eq_refl).
    apply coerce_digits; auto with digits.
  - rewrite string_app_nil. apply coerce_digits; auto with digits.
Qed.

Lemma substring_all (s : string) : substring 0 (String.length s) s = s.
Proof. induction s as [|c s IH]; simpl; [done|]. by rewrite IH. Qed.

Lemma substring_split (s : string) (k : nat) :
  (k ≤ String.length s)%nat →
  s = substring 0 k s +:+ substring k (String.length s - k) s
  ∧ String.length (substring 0 k s) = k.
Proof.
  revert k. induction s as [|c s IH]; intros k Hk.
  - simpl in Hk. assert (k = 0)%nat as -> by lia. done.
  - destruct k as [|k].
    + rewrite Nat.sub_0_r, substring_all. done.
    + simpl in Hk. destruct (IH k ltac:(lia)) as [Heq Hlen].
      simpl. rewrite string_app_cons, <- Heq, Hlen. done.
Qed.

Lemma str_of_N_length n : (0 < String.length (str_of_N n))%nat.
Proof.
  pose proof (str_of_N_nonempty n). destruct (str_of_N n); [done|simpl; lia].
Qed.

Lemma nonempty_length (a : string) : (0 < String.length a)%nat → a ≠ "".
Proof. destruct a; simpl; [lia|done]. Qed.

(** A float written without exponent is coerced to its magnitude. *)
Lemma coerce_float_repr_abs f :
  float_uses_exponent f = false →
  to_numeric (str_extract (float_repr_abs f)) = Some (float_magnitude f).
Proof.
  intros Hexp. unfold float_repr_abs, float_magnitude, float_ndigits.
  rewrite Hexp. clear Hexp.
  destruct f as [neg m p]. simpl float_digits. simpl float_decpt.
  set (ds := str_of_N m).
  pose proof (all_digits_str_of_N m) as Hds. fold ds in Hds.
  pose proof (str_of_N_length m) as Hlen. fold ds in Hlen.
  pose proof (digits_value_str_of_N m) as Hval. fold ds in Hval.
  set (n := String.length ds) in *.
  destruct (Z.leb_spec p 0) as [Hp|Hp].
  - (* 0.000ddd *)
    change ("0." +:+ zeros (Z.to_nat (- p)) +:+ ds)
      with ("0" +:+ String "." (zeros (Z.to_nat (- p)) +:+ ds)).
    rewrite coerce_point;
      [|done|done|by rewrite all_digits_app, all_digits_zeros, Hds].
    f_equal. unfold decimal_value.
    destruct (Z.leb_spec 0 (p - Z.of_nat n)) as [?|_]; [lia|].
    rewrite !digits_value_app, digits_value_zeros, Hval.
    rewrite string_length_app, length_zeros. fold n.
    change (digits_value "0") with 0%N.
    replace (Z.to_nat (- (p - Z.of_nat n))) with (Z.to_nat (- p) + n)%nat by lia.
    f_equal.
  - destruct (Z.ltb_spec p (Z.of_nat n)) as [Hpn|Hpn].
    + (* ddd.ddd *)
      destruct (substring_split ds (Z.to_nat p)) as [Hsplit Hla]; [lia|].
      fold n in Hsplit.
      set (a := substring 0 (Z.to_nat p) ds) in *.
      set (b := substring (Z.to_nat p) (n - Z.to_nat p) ds) in *.
      assert (Hab : all_digits a = true ∧ all_digits b = true).
      { apply andb_true_iff. rewrite <- all_digits_app, <- Hsplit. done. }
      destruct Hab as [Ha Hb].
      change ("." +:+ b) with (String "." b).
      rewrite coerce_point; [|apply nonempty_length; lia|done|done].
      f_equal. unfold decimal_value. rewrite <- Hsplit, Hval.
      destruct (Z.leb_spec 0 (p - Z.of_nat n)) as [?|_]; [lia|].
      assert (Hlb : String.length b = (n - Z.to_nat p)%nat).
      { pose proof (f_equal String.length Hsplit) as E.
        rewrite string_length_app, Hla in E. fold n in E. lia. }
      rewrite Hlb.
      by replace (Z.to_nat (- (p - Z.of_nat n))) with (n - Z.to_nat p)%nat by lia.
    + (* ddd000.0 *)
      rewrite <- string_app_assoc.
      change ".0" with (String "." "0").
      rewrite coerce_point;
        [| |by rewrite all_digits_app, all_digits_zeros, Hds|done].
      2:{ apply nonempty_length. rewrite string_length_app. fold n. lia. }
      f_equal. unfold decimal_value.
      destruct (Z.leb_spec 0 (p - Z.of_nat n)) as [_|?]; [|lia].
      rewrite !digits_value_app, digits_value_zeros, Hval, length_zeros.
      apply Q2Qc_eq_iff. unfold Qeq. simpl.
      replace (Z.to_nat (p - Z.of_nat n)) with (Z.to_nat p - n)%nat by lia.
      change (digits_value "0") with 0%N. lia.
Qed.

(** *** Stripping and upper-casing *)

Lemma lstrip_spec s :
  ∃ l, s = l +:+ lstrip s ∧ all_space l = true
       ∧ starts_with is_space (lstrip s) = false.
Proof.
  induction s as [|c s IH]; simpl.
  - by exists "".
  - destruct (is_space c) eqn:Hc.
    + destruct IH as (l & Heq & Hl & Hs). exists (String c l).
      rewrite string_app_cons, <- Heq. simpl. by rewrite Hc.
    + exists "". simpl. by rewrite Hc.
Qed.

Lemma lstrip_padded l c r :
  all_space l = true → is_space c = false →
  lstrip (l +:+ String c r) = String c r.
Proof.
  intros Hl Hc. induction l as [|d l IH]; simpl in *.
  - by rewrite Hc.
  - apply andb_true_iff in Hl as [Hd Hl]. rewrite Hd. auto.
Qed.

Lemma rstrip_empty s : rstrip s = "" ↔ all_space s = true.
Proof.
  induction s as [|c s IH]; simpl; [done|].
  destruct (rstrip s) eqn:Hr.
  - destruct (is_space c); simpl; [tauto|].
    split; discriminate.
  - split; [discriminate|]. intros [_ Hs]%andb_true_iff.
    apply IH in Hs. discriminate.
Qed.

Lemma rstrip_single s c :
  rstrip s = String c "" ↔
  is_space c = false ∧ ∃ r, s = String c r ∧ all_space r = true.
Proof.
  destruct s as [|d s]; simpl.
  - split; [discriminate|]. by intros (_ & r & ? & _).
  - destruct (rstrip s) eqn:Hr.
    + apply rstrip_empty in Hr. destruct (is_space d) eqn:Hd.
      * split; [discriminate|]. intros (Hc & r & [= -> ->] & _). congruence.
      * split.
        -- intros [= ->]. split; [done|]. by exists s.
        -- by intros (_ & r & [= -> ->] & _).
    + split.
      * by intros [=].
      * intros (_ & r & [= -> ->] & Hs). apply rstrip_empty in Hs. congruence.
Qed.

Lemma strip_single s c :
  strip s = String c "" ↔ is_space c = false ∧ padded c s.
Proof.
  unfold strip, padded. rewrite rstrip_single. split.
  - intros (Hc & r & Hr & Hall). split; [done|].
    destruct (lstrip_spec s) as (l & Heq & Hl & _).
    exists l, r. by rewrite <- Hr.
  - intros (Hc & l & r & -> & Hl & Hr). split; [done|].
    exists r. by rewrite lstrip_padded.
Qed.

Lemma upper_single s C :
  upper s = String C "" ↔ ∃ c, s = String c "" ∧ upper_char c = C.
Proof.
  destruct s as [|c [|d s]]; simpl.
  - split; [discriminate|]. by intros (? & ? & _).
  - split; [intros [= <-]; by exists c | by intros (? & [= <-] & <-)].
  - split; [discriminate|]. by intros (? & ? & _).
Qed.

Lemma upper_char_Y c : upper_char c = "Y"%char ↔ c = "Y"%char ∨ c = "y"%char.
Proof.
  split.
  - ascii_cases c; vm_compute; intros H;
      first [discriminate H | by left | by right].
  - by intros [-> | ->].
Qed.

Lemma upper_char_N c : upper_char c = "N"%char ↔ c = "N"%char ∨ c = "n"%char.
Proof.
  split.
  - ascii_cases c; vm_compute; intros H;
      first [discriminate H | by left | by right].
  - by intros [-> | ->].
Qed.

(** The token that the map sees is ["Y"] exactly for a [y] of either case
    between whitespace, and likewise ["N"]. *)
Lemma upper_strip_Y s :
  upper (strip s) = "Y" ↔ padded "Y" s ∨ padded "y" s.
Proof.
  rewrite upper_single. split.
  - intros (c & Hs & [-> | ->]%upper_char_Y);
      apply strip_single in Hs as [_ Hs]; auto.
  - intros [H | H]; [exists "Y"%char | exists "y"%char];
      (split; [by apply strip_single|done]).
Qed.

Lemma upper_strip_N s :
  upper (strip s) = "N" ↔ padded "N" s ∨ padded "n" s.
Proof.
  rewrite upper_single. split.
  - intros (c & Hs & [-> | ->]%upper_char_N);
      apply strip_single in Hs as [_ Hs]; auto.
  - intros [H | H]; [exists "N"%char | exists "n"%char];
      (split; [by apply strip_single|done]).
Qed.

Lemma map_passed_true s : map_passed s = Some true ↔ s = "Y".
Proof.
  unfold map_passed. destruct (String.eqb_spec s "Y") as [->|Hy]; [done|].
  destruct (String.eqb s "N"); split; done.
Qed.

Lemma map_passed_false s : map_passed s = Some false ↔ s = "N".
Proof.
  unfold map_passed. destruct (String.eqb_spec s "Y") as [->|Hy]; [done|].
  destruct (String.eqb_spec s "N") as [->|Hn]; split; done.
Qed.

Lemma clean_row_inv name r rec :
  clean_row name r = inr rec →
  ∃ income,
    astype_bool (replace (raw_IncomeStudent r)) = inr income ∧
    rec = {| Track := replace (PyStr name);
             Math := coerce_numeric (replace (raw_Math r));
             English := coerce_numeric (replace (raw_English r));
             Science := coerce_numeric (replace (raw_Science r));
             History := coerce_numeric (replace (raw_History r));
             Attendance := coerce_numeric (replace (raw_Attendance r));
             ProjectScore := coerce_numeric (replace (raw_ProjectScore r));
             IncomeStudent := income;
             Passed := decode_passed (replace (raw_Passed r));
             Cohort := replace (raw_Cohort r) |}.
Proof.
  unfold clean_row, bind.
  destruct (astype_bool (replace (raw_IncomeStudent r))) as [e|income]; [done|].
  intros [= <-]. by exists income.
Qed.

(** C2: the pass/fail decoding. For every source value of the pass/fail
    column, with [s] its text after the missing tokens have been replaced:
    the decoded value is the image, under the map of ["Y"] to true and
    ["N"] to false, of [s] stripped and upper-cased; it is true exactly
    when [s] is a [y] of either case between whitespace, false exactly
    when [s] is such an [n], and null for every other value; a value that
    is missing after the replacement decodes to null; and this decoded
    value is what the cleaned row carries. *)
Theorem passed_decoding (c : cell) :
  let s := astype_str (replace c) in
  decode_passed (replace c) = map_passed (PyStr.upper (PyStr.strip s))
  ∧ (decode_passed (replace c) = Some true ↔ padded "Y" s ∨ padded "y" s)
  ∧ (decode_passed (replace c) = Some false ↔ padded "N" s ∨ padded "n" s)
  ∧ (decode_passed (replace c) = None ↔
       ¬ (padded "Y" s ∨ padded "y" s ∨ padded "N" s ∨ padded "n" s))
  ∧ (is_null (replace c) = true → decode_passed (replace c) = None)
  ∧ (∀ name r rec, clean_row name r = inr rec → raw_Passed r = c →
       Passed rec = decode_passed (replace c)).
Proof.
  intros s. unfold decode_passed, passed_token. fold s.
  pose proof (map_passed_true (upper (strip s))) as Ht.
  pose proof (map_passed_false (upper (strip s))) as Hf.
  rewrite upper_strip_Y in Ht. rewrite upper_strip_N in Hf.
  split; [done|]. split; [done|]. split; [done|]. split; [|split].
  - destruct (map_passed (upper (strip s))) as [[]|] eqn:Hm.
    + split; [done|]. intros Hn. exfalso. apply Hn. tauto.
    + split; [done|]. intros Hn. exfalso. apply Hn. tauto.
    + split; [|done]. intros _ [H|[H|[H|H]]].
      * assert (@None bool = Some true) by (apply Ht; auto). done.
      * assert (@None bool = Some true) by (apply Ht; auto). done.
      * assert (@None bool = Some false) by (apply Hf; auto). done.
      * assert (@None bool = Some false) by (apply Hf; auto). done.
  - unfold s. destruct (replace c); try done.
  - intros name r rec (income & _ & ->)%clean_row_inv <-. done.
Qed.

Lemma passed_decoding_examples :
  decode_passed (replace (PyStr " y ")) = Some true
  ∧ decode_passed (replace (PyStr "No")) = None
  ∧ decode_passed (replace (PyStr "N/A")) = None.
Proof.
  split; [|split].
  - apply (passed_decoding (PyStr " y ")). right. by exists " ", " ".
  - destruct (passed_decoding (PyStr "No")) as (-> & _). reflexivity.
  - by apply (passed_decoding (PyStr "N/A")).
Defined.

(** ** The loader *)

Lemma coerce_numeric_float f :
  float_uses_exponent f = false →
  coerce_numeric (PyFloat f) = Some (float_magnitude f).
Proof.
  intros Hexp. unfold coerce_numeric. simpl astype_str. unfold float_repr.
  destruct (float_neg f).
  - rewrite (str_extract_skip "-" _ eq_refl). by apply coerce_float_repr_abs.
  - rewrite string_app_nil. by apply coerce_float_repr_abs.
Qed.

Lemma float_magnitude_nonneg f : (0 ≤ float_magnitude f)%Qc.
Proof.
  unfold float_magnitude.
  destruct (0 <=? float_decpt f - Z.of_nat (float_ndigits f))%Z;
    apply Q2Qc_nonneg; unfold Qle; simpl; lia.
Qed.

Lemma Qc_of_Z_nonneg z : (0 ≤ Qc_of_Z z)%Qc → (0 ≤ z)%Z.
Proof. unfold Qcle. simpl. unfold Qle. simpl. lia. Qed.

Lemma Qc_nonneg_opp (q : Qc) : (0 ≤ q)%Qc → (0 ≤ - q)%Qc → (- q)%Qc = q.
Proof.
  intros Hq Hn. assert (q = 0%Qc) as ->; [|done].
  apply Qcle_antisym; [|done].
  apply Qcopp_le_compat in Hn. by rewrite Qcopp_involutive in Hn.
Qed.

Lemma coerce_numeric_nonneg c : nonneg_or_null (coerce_numeric c).
Proof.
  unfold nonneg_or_null. destruct (coerce_numeric c) as [q|] eqn:H; [|done].
  by apply to_numeric_nonneg in H.
Qed.

Lemma coerce_numeric_null c : is_null c = true → coerce_numeric c = None.
Proof. by destruct c. Qed.

(** *** Rows of the loaded frame *)

Lemma for_each_inv {A B} (f : A → except B) l bs :
  for_each f l = inr bs → Forall2 (λ a b, f a = inr b) l bs.
Proof.
  revert bs. induction l as [|a l IH]; intros bs; simpl.
  - intros [= <-]. constructor.
  - unfold bind. destruct (f a) as [e|b] eqn:Hb; [done|].
    destruct (for_each f l) as [e|bs'] eqn:Hbs; [done|].
    intros [= <-]. constructor; auto.
Qed.

Lemma clean_sheets_inv sheets df rec :
  clean_sheets sheets = inr df → rec ∈ df →
  ∃ name rows r, (name, rows) ∈ sheets ∧ r ∈ rows
                 ∧ clean_row name r = inr rec.
Proof.
  unfold clean_sheets, bind, pd_concat.
  destruct (for_each clean_sheet sheets) as [e|dfs] eqn:Hdfs; [done|].
  apply for_each_inv in Hdfs. destruct dfs as [|d dfs]; [done|].
  intros [= <-] Hin. change (rec ∈ concat (d :: dfs)) in Hin.
  apply list_elem_of_In, in_concat in Hin as (d' & Hd' & Hrec).
  apply list_elem_of_In in Hd', Hrec.
  apply list_elem_of_lookup in Hd' as [i Hi].
  destruct (Forall2_lookup_r _ _ _ _ _ Hdfs Hi) as ([name rows] & Hs & Hclean).
  unfold clean_sheet in Hclean. simpl in Hclean.
  apply for_each_inv in Hclean.
  apply list_elem_of_lookup in Hrec as [j Hj].
  destruct (Forall2_lookup_r _ _ _ _ _ Hclean Hj) as (r & Hr & Hrow).
  exists name, rows, r. repeat split; [| |done].
  - apply list_elem_of_lookup. by exists i.
  - apply list_elem_of_lookup. by exists j.
Qed.

Lemma load_and_clean_excel_inv files df :
  load_and_clean_excel files = inr df →
  ∃ sheets, auto_load_excel files = inr sheets ∧ clean_sheets sheets = inr df.
Proof.
  unfold load_and_clean_excel, bind.
  destruct (auto_load_excel files) as [e|sheets]; [done|]. eauto.
Qed.

Lemma loaded_record files df rec :
  load_and_clean_excel files = inr df → rec ∈ df →
  ∃ sheets name rows r,
    auto_load_excel files = inr sheets ∧ (name, rows) ∈ sheets ∧ r ∈ rows
    ∧ clean_row name r = inr rec.
Proof.
  intros (sheets & Hload & Hclean)%load_and_clean_excel_inv Hin.
  destruct (clean_sheets_inv _ _ _ Hclean Hin) as (name & rows & r & ? & ? & ?).
  by exists sheets, name, rows, r.
Qed.

(** C10: no negative number enters the cleaned frame. Every coerced cell
    is null or a number that is not negative; a Python integer is coerced
    to its absolute value, the minus sign being dropped; whenever the
    pattern matches, the text of the cell is cut as [pre ++ t ++ post] with
    no digit in [pre] and [t] an unsigned run of digits with an optional
    point and further digits, and the coerced value is read from [t]
    alone; and each of the six numeric fields of every row that the loader
    returns is null or not negative. *)
Theorem coerced_values_nonnegative :
  (∀ c, nonneg_or_null (coerce_numeric c))
  ∧ (∀ z, coerce_numeric (replace (PyInt z)) = Some (Qc_of_Z (Z.abs z)))
  ∧ (∀ c t, str_extract (astype_str c) = Some t →
       (∃ pre post, astype_str c = pre +:+ t +:+ post ∧ number_at pre t post)
       ∧ coerce_numeric c = to_numeric (Some t)
       ∧ is_Some (coerce_numeric c))
  ∧ (∀ files df rec, load_and_clean_excel files = inr df → rec ∈ df →
       nonneg_or_null (Math rec) ∧ nonneg_or_null (English rec)
       ∧ nonneg_or_null (Science rec) ∧ nonneg_or_null (History rec)
       ∧ nonneg_or_null (Attendance rec) ∧ nonneg_or_null (ProjectScore rec)).
Proof.
  split; [exact coerce_numeric_nonneg|]. split; [exact coerce_numeric_int|].
  split.
  - intros c t Ht. split; [|split].
    + pose proof (str_extract_spec (astype_str c)) as H. by rewrite Ht in H.
    + unfold coerce_numeric. by rewrite Ht.
    + unfold coerce_numeric. rewrite Ht.
      destruct (to_numeric_extract _ _ Ht) as [q ->]. by exists q.
  - intros files df rec Hload Hin.
    destruct (loaded_record _ _ _ Hload Hin)
      as (_ & name & _ & r & _ & _ & _ & (income & _ & ->)%clean_row_inv).
    simpl. repeat split; apply coerce_numeric_nonneg.
Qed.

Lemma coerced_values_nonnegative_example :
  coerce_numeric (replace (PyInt (-5))) = Some (Qc_of_Z 5)
  ∧ nonneg_or_null (coerce_numeric (PyStr "-12.5 pts")).
Proof.
  split.
  - apply (proj1 (proj2 coerced_values_nonnegative) (-5)%Z).
  - apply (proj1 coerced_values_nonnegative).
Defined.

(** C9 as stated fails: a negative integer loses its sign, and a float
    that [str] writes with an exponent is cut at the exponent. *)
Lemma coercion_changes_some_numbers :
  cell_number (PyInt (-5)) = Some (Qc_of_Z (-5))
  ∧ coerce_numeric (PyInt (-5)) = Some (Qc_of_Z 5)
  ∧ coerce_numeric (PyInt (-5)) ≠ cell_number (PyInt (-5))
  ∧ astype_str (PyFloat (PyFloatOf false 1 (-4))) = "1e-05"
  ∧ coerce_numeric (PyFloat (PyFloatOf false 1 (-4))) = Some (Qc_of_Z 1)
  ∧ coerce_numeric (PyFloat (PyFloatOf false 1 (-4)))
    ≠ cell_number (PyFloat (PyFloatOf false 1 (-4))).
Proof.
  split; [done|]. split; [apply coerce_numeric_int|].
  split; [rewrite coerce_numeric_int; by intros [= H]|].
  split; [done|].
  assert (H1 : coerce_numeric (PyFloat (PyFloatOf false 1 (-4)))
               = Some (Qc_of_Z 1)).
  { vm_compute. f_equal. by apply Qc_is_canon. }
  split; [exact H1|]. rewrite H1. by intros [= H].
Qed.

(** C9, amended: coercing a null cell gives null, and coercing a cell that
    holds a number that is not negative and that [str] writes without an
    exponent and with fifteen digits at most gives that number. *)
Theorem numeric_coercion_idempotent (c : cell) :
  (is_null c = true → coerce_numeric c = None)
  ∧ (∀ q, cell_number c = Some q → (0 ≤ q)%Qc →
       written_plainly c = true → written_shortly c = true →
       coerce_numeric c = Some q).
Proof.
  split; [apply coerce_numeric_null|].
  intros q Hq Hpos Hplain _. destruct c as [| | |z|f|]; try done; simpl in *.
  - injection Hq as <-. rewrite coerce_numeric_int.
    apply Qc_of_Z_nonneg in Hpos. by rewrite Z.abs_eq.
  - injection Hq as <-. apply negb_true_iff in Hplain.
    rewrite coerce_numeric_float by done. f_equal.
    unfold float_value in *. destruct (float_neg f); [|done].
    symmetry. apply Qc_nonneg_opp; [apply float_magnitude_nonneg|done].
Qed.

Lemma numeric_coercion_idempotent_example :
  coerce_numeric NaN = None
  ∧ coerce_numeric (PyFloat (PyFloatOf false 855 2))
    = Some (float_value (PyFloatOf false 855 2))
  ∧ coerce_numeric (PyFloat (PyFloatOf false 123456789012345 10))
    = Some (float_value (PyFloatOf false 123456789012345 10))
  ∧ coerce_numeric (PyInt 90) = Some (Qc_of_Z 90).
Proof.
  split; [|split; [|split]].
  - by apply (numeric_coercion_idempotent NaN).
  - by apply (numeric_coercion_idempotent (PyFloat (PyFloatOf false 855 2))).
  - by apply (numeric_coercion_idempotent
                (PyFloat (PyFloatOf false 123456789012345 10))).
  - by apply (numeric_coercion_idempotent (PyInt 90)).
Defined.

(** *** The income flag *)

Lemma astype_bool_raises c :
  (∃ e, astype_bool c = inl e) ↔ c = NA.
Proof.
  split; [|intros ->; by exists TypeError].
  intros [e He]. by destruct c.
Qed.

Lemma replace_NA c :
  replace c = NA ↔ c = NA ∨ ∃ s, c = PyStr s ∧ s ∈ missing_tokens.
Proof.
  split.
  - destruct c as [| | | | |s]; simpl; try done; [by left|].
    case_bool_decide; [|done]. intros _. right. by exists s.
  - intros [->|(s & -> & Hs)]; [done|]. simpl. by rewrite bool_decide_eq_true_2.
Qed.

Lemma clean_row_raises name r :
  replace (raw_IncomeStudent r) = NA → clean_row name r = inl TypeError.
Proof. intros H. unfold clean_row. by rewrite H. Qed.

Lemma clean_row_returns name r :
  replace (raw_IncomeStudent r) ≠ NA → ∃ rec, clean_row name r = inr rec.
Proof.
  intros H. unfold clean_row, bind.
  destruct (astype_bool (replace (raw_IncomeStudent r))) as [e|b] eqn:Hb.
  - exfalso. apply H, astype_bool_raises. by exists e.
  - by eexists.
Qed.

(** C8: the income flag. On the source value "Waived" the conversion of
    the income flag raises [TypeError], and with it the cleaning of the
    row and the whole load: the token is replaced by the missing marker,
    which has no truth value. The conversion raises exactly for the
    missing marker and for the four tokens replaced by it; every other
    value is converted to its truth value, 0 to false and "yes" to true. *)
Theorem income_flag_of_missing_token_raises :
  astype_bool (replace (PyStr "Waived")) = inl TypeError
  ∧ load_and_clean_excel
      [("student_grades_2024.xlsx", [("A", [Sample.waived_income])])]
    = inl TypeError
  ∧ (∀ c, (∃ e, astype_bool (replace c) = inl e)
          ↔ c = NA ∨ ∃ s, c = PyStr s ∧ s ∈ missing_tokens)
  ∧ astype_bool (replace (PyInt 0)) = inr false
  ∧ astype_bool (replace (PyStr "yes")) = inr true
  ∧ astype_bool (replace NaN) = inr true.
Proof.
  split; [done|]. split; [done|]. split; [|done].
  intros c. by rewrite astype_bool_raises, replace_NA.
Qed.

Lemma for_each_raises {A B} (f : A → except B) l a e :
  a ∈ l → f a = inl e → ∃ e', for_each f l = inl e'.
Proof.
  intros Hin Hf. induction l as [|x l IH]; [by apply elem_of_nil in Hin|].
  simpl. unfold bind. apply elem_of_cons in Hin as [<-|Hin].
  - rewrite Hf. by exists e.
  - destruct (f x); [by eexists|]. destruct (IH Hin) as [e' ->]. by exists e'.
Qed.

Lemma clean_sheets_raises sheets name rows r :
  (name, rows) ∈ sheets → r ∈ rows →
  replace (raw_IncomeStudent r) = NA →
  ∃ e, clean_sheets sheets = inl e.
Proof.
  intros Hs Hr Hna. unfold clean_sheets, bind.
  destruct (for_each_raises (clean_row name) rows r TypeError Hr
              (clean_row_raises name r Hna)) as [e He].
  destruct (for_each_raises clean_sheet sheets (name, rows) e Hs He)
    as [e' ->].
  by exists e'.
Qed.

(** C4: coercion of the cells of a row. Cleaning a row raises [TypeError]
    when its income flag is missing after the replacement of the tokens,
    as for the flag "Waived", and returns a row otherwise; a workbook that
    holds such a row is not cleaned at all. The numeric columns and the
    pass/fail column never raise: a numeric cell that is missing after the
    replacement, or whose text holds no digit, becomes null, and any other
    is read from the first match of the pattern. *)
Theorem cleaning_raises_on_missing_income_flag :
  clean_row "A" Sample.waived_income = inl TypeError
  ∧ clean_sheets [("A", [Sample.waived_income])] = inl TypeError
  ∧ (∀ name r, replace (raw_IncomeStudent r) = NA →
       clean_row name r = inl TypeError)
  ∧ (∀ name r, replace (raw_IncomeStudent r) ≠ NA →
       ∃ rec, clean_row name r = inr rec)
  ∧ (∀ sheets name rows r, (name, rows) ∈ sheets → r ∈ rows →
       replace (raw_IncomeStudent r) = NA → ∃ e, clean_sheets sheets = inl e)
  ∧ (∀ c, is_null (replace c) = true → coerce_numeric (replace c) = None)
  ∧ (∀ c, no_digit (astype_str c) = true → coerce_numeric c = None)
  ∧ (∀ c t, str_extract (astype_str c) = Some t →
       (∃ pre post, astype_str c = pre +:+ t +:+ post ∧ number_at pre t post)
       ∧ ∃ q, coerce_numeric c = Some q ∧ to_numeric (Some t) = Some q).
Proof.
  split; [done|]. split; [done|].
  split; [exact clean_row_raises|]. split; [exact clean_row_returns|].
  split; [exact clean_sheets_raises|].
  split; [intros c; apply coerce_numeric_null|]. split.
  - intros c Hc. unfold coerce_numeric.
    by apply str_extract_None in Hc as ->.
  - intros c t Ht. split.
    + pose proof (str_extract_spec (astype_str c)) as H. by rewrite Ht in H.
    + unfold coerce_numeric. rewrite Ht.
      destruct (to_numeric_extract _ _ Ht) as [q Hq]. by exists q.
Qed.

(** *** The track label *)

Lemma clean_row_track name r rec :
  clean_row name r = inr rec → Track rec = replace (PyStr name).
Proof. by intros (income & _ & ->)%clean_row_inv. Qed.

Lemma replace_label name :
  replace (PyStr name)
  = if bool_decide (name ∈ missing_tokens) then NA else PyStr name.
Proof. done. Qed.

(** Under a label that is none of the four tokens every row carries its
    label. *)
Lemma track_is_label files df rec :
  load_and_clean_excel files = inr df → rec ∈ df →
  ∃ sheets name rows,
    auto_load_excel files = inr sheets ∧ (name, rows) ∈ sheets
    ∧ Track rec = replace (PyStr name)
    ∧ (name ∉ missing_tokens → Track rec = PyStr name)
    ∧ (name ∈ missing_tokens → Track rec = NA).
Proof.
  intros Hload Hin.
  destruct (loaded_record _ _ _ Hload Hin)
    as (sheets & name & rows & r & Hs & Hn & _ & Hrow).
  apply clean_row_track in Hrow.
  exists sheets, name, rows. rewrite Hrow, replace_label.
  repeat split; try done; intros H.
  - by rewrite bool_decide_eq_false_2.
  - by rewrite bool_decide_eq_true_2.
Qed.

(** C7: the track of a row. A workbook whose sheet is named "NA" is loaded
    without error, and its row carries a null track: the label is attached
    before the missing tokens are replaced in every column, the new one
    among them. Every row of a loaded frame carries the label of its sheet
    after that replacement, which is the label itself unless the label is
    one of the four tokens. *)
Theorem track_label_lost_for_missing_token :
  load_and_clean_excel [("student_grades_2024.xlsx", Sample.sheet_named_NA)]
  = inr [ {| Track := NA;
             Math := Some (Qc_of_Z 80);
             English := None;
             Science := None;
             History := None;
             Attendance := Some (Qc_of_Z 90);
             ProjectScore := Some (Qc_of_Z 10);
             IncomeStudent := true;
             Passed := Some true;
             Cohort := PyStr "2024" |} ]
  ∧ (∀ files df rec, load_and_clean_excel files = inr df → rec ∈ df →
       ∃ sheets name rows,
         auto_load_excel files = inr sheets ∧ (name, rows) ∈ sheets
         ∧ Track rec = replace (PyStr name)
         ∧ (name ∉ missing_tokens → Track rec = PyStr name)
         ∧ (name ∈ missing_tokens → Track rec = NA)).
Proof.
  split; [|exact track_is_label].
  vm_compute. do 3 f_equal.
  all: f_equal; by apply Qc_is_canon.
Qed.

(** ** The aggregator *)

Local Open Scope Qc_scope.

(** *** Grouping *)

Section Grouping.
Context (key : record → cell) (df : list record).

Lemma groupby_lookup k :
  groupby key df !! k
  = match group_rows key df k with
    | [] => None
    | rows => Some rows
    end.
Proof.
  unfold group_rows. induction df as [|r df' IH]; simpl; [done|].
  destruct (group_key (key r)) as [k'|] eqn:Hk.
  - destruct (decide (k' = k)) as [->|Hne].
    + rewrite lookup_insert_eq, filter_cons_True by done.
      rewrite IH. by destruct (filter _ df').
    + rewrite lookup_insert_ne, filter_cons_False by congruence. done.
  - rewrite filter_cons_False by congruence. done.
Qed.

Lemma groupby_lookup_Some k rows :
  groupby key df !! k = Some rows ↔ rows = group_rows key df k ∧ rows ≠ [].
Proof.
  rewrite groupby_lookup. destruct (group_rows key df k) eqn:E.
  - split; [done|]. by intros [-> ?].
  - split; [by intros [= <-]|]. by intros [-> _].
Qed.

(** The group of a row whose key is not null is in the table. *)
Lemma groupby_lookup_elem r :
  r ∈ df → is_null (key r) = false →
  groupby key df !! key r = Some (group_rows key df (key r)).
Proof.
  intros Hin Hnull. apply groupby_lookup_Some. split; [done|].
  assert (r ∈ group_rows key df (key r)) as Hr.
  { apply list_elem_of_filter. split; [|done].
    unfold group_key. by rewrite Hnull. }
  intros E. rewrite E in Hr. by apply elem_of_nil in Hr.
Qed.

(** The rows of a group are the rows that carry its key. *)
Lemma group_rows_elem k r :
  r ∈ group_rows key df k ↔ r ∈ df ∧ key r = k ∧ is_null k = false.
Proof.
  unfold group_rows. rewrite list_elem_of_filter. unfold group_key.
  destruct (is_null (key r)) eqn:Hn.
  - split; [by intros [? _]|]. intros (_ & <- & ?). congruence.
  - split; [intros [[= <-] ?]; by repeat split|].
    by intros (? & <- & _).
Qed.

End Grouping.

Lemma group_rows_nonnull key df k :
  is_null k = false → group_rows key df k = filter (λ r, key r = k) df.
Proof.
  intros Hk. unfold group_rows. apply list_filter_iff. intros r.
  unfold group_key. destruct (is_null (key r)) eqn:Hr.
  - split; [done|]. intros E. congruence.
  - split; [by intros [= ?]|by intros ->].
Qed.

Lemma group_rows_null key df k : is_null k = true → group_rows key df k = [].
Proof.
  intros Hk. destruct (group_rows key df k) as [|r rows] eqn:E; [done|].
  assert (r ∈ group_rows key df k) as Hr by (rewrite E; by left).
  apply group_rows_elem in Hr as (_ & _ & ?). congruence.
Qed.

(** *** The correlation loop *)

Lemma iloc_corr a b : iloc (corr [a; b]) 0 1 = inr (nancorr a b).
Proof. done. Qed.

Lemma unique_elem l c : c ∈ unique l ↔ c ∈ l.
Proof.
  induction l as [|d l IH]; simpl; [done|].
  rewrite !elem_of_cons, list_elem_of_filter, IH.
  destruct (decide (c = d)) as [->|Hne]; [split; by left|].
  split.
  - intros [?|[_ ?]]; [by left|by right].
  - intros [?|?]; [done|by right].
Qed.

Lemma corr_loop_spec tracks df init :
  ∃ m, corr_loop tracks df init = inr m
       ∧ ∀ k, m !! k = if decide (k ∈ tracks) then Some (track_corr df k)
                       else init !! k.
Proof.
  revert init. induction tracks as [|t tracks IH]; intros init.
  - exists init. split; [done|]. intros k.
    case_decide as Hk; [by apply elem_of_nil in Hk|done].
  - cbn [corr_loop]. rewrite iloc_corr. cbn [bind].
    destruct (IH (<[t := track_corr df t]> init)) as (m & Hm & Hlook).
    exists m. split; [exact Hm|]. intros k. rewrite Hlook.
    destruct (decide (k ∈ tracks)) as [Hin|Hnin].
    + case_decide as Hk; [done|]. exfalso. apply Hk. by right.
    + destruct (decide (k = t)) as [->|Hne].
      * rewrite lookup_insert_eq. case_decide as Hk; [done|].
        exfalso. apply Hk. by left.
      * rewrite lookup_insert_ne by done.
        case_decide as Hk; [|done]. by apply elem_of_cons in Hk as [?|?].
Qed.

(** *** The dictionary of views *)

Lemma compute_statistics_views df :
  ∃ stats corr_list,
    compute_statistics df = inr stats
    ∧ corr_loop (unique (Track <$> df)) df ∅ = inr corr_list
    ∧ stats !! "track" = Some (Table (groupby_agg Track df))
    ∧ stats !! "cohort" = Some (Table (groupby_agg Cohort df))
    ∧ stats !! "income"
      = Some (Table (groupby_agg (λ r, PyBool (IncomeStudent r)) df))
    ∧ stats !! "history_by_track"
      = Some (Lists (groupby_lists Track History df))
    ∧ stats !! "math_comparison" = Some (Series (groupby_mean Track Math df))
    ∧ stats !! "attendance_project_corr" = Some (CorrSeries corr_list)
    ∧ stats !! "global" = Some (Global (global_agg df))
    ∧ dom stats = list_to_set
        ["track"; "cohort"; "income"; "history_by_track"; "math_comparison";
         "attendance_project_corr"; "global"].
Proof.
  destruct (corr_loop_spec (unique (Track <$> df)) df ∅) as (m & Hm & _).
  unfold compute_statistics. rewrite Hm. simpl.
  eexists _, m. split; [reflexivity|]. split; [done|].
  repeat (split; [by simplify_map_eq|]).
  rewrite !dom_insert_L, dom_empty_L. simpl. set_solver.
Qed.

(** *** Means *)

Lemma Qc_of_nat_S n : Qc_of_nat (S n) = 1 + Qc_of_nat n.
Proof.
  unfold Qc_of_nat. rewrite Nat2Z.inj_succ, <- Z.add_1_l, Z2Qc_inj_add.
  by rewrite Z2Qc_inj_1.
Qed.

Lemma Qc_of_nat_0 : Qc_of_nat 0 = 0.
Proof. apply Z2Qc_inj_0. Qed.

Lemma Qc_of_nat_nonzero n : (0 < n)%nat → Qc_of_nat n ≠ 0.
Proof.
  intros Hn E. unfold Qc_of_nat in E. rewrite <- Z2Qc_inj_0 in E.
  apply Z2Qc_inj in E. lia.
Qed.

Lemma dropna_fmap {A B} (f : A → B) (col : list (option A)) :
  dropna ((fmap f : option A → option B) <$> col) = f <$> dropna col.
Proof.
  unfold dropna. induction col as [|[a|] col IH]; [done| |exact IH].
  cbn. f_equal. exact IH.
Qed.

Lemma dropna_nil {A} (col : list (option A)) :
  dropna col = [] ↔ Forall (λ x, x = None) col.
Proof.
  unfold dropna. induction col as [|[a|] col IH]; simpl.
  - split; [constructor|done].
  - split; [done|]. by intros [? ?]%Forall_cons.
  - rewrite IH. split; [by constructor|]. by intros [? ?]%Forall_cons.
Qed.

Lemma mean_no_value col : dropna col = [] → mean col = None.
Proof. unfold mean. by intros ->. Qed.

Lemma mean_value col :
  dropna col ≠ [] →
  mean col = Some (sum_Qc (dropna col) / Qc_of_nat (length (dropna col))).
Proof. unfold mean, average. by destruct (dropna col). Qed.

Lemma sum_bool_number bs :
  sum_Qc (bool_number <$> bs)
  = Qc_of_nat (length (filter (λ b, b = true) bs)).
Proof.
  induction bs as [|[] bs IH].
  - simpl. by rewrite Qc_of_nat_0.
  - rewrite filter_cons_True, fmap_cons by done. cbn [length sum_Qc foldr].
    fold (sum_Qc (bool_number <$> bs)). by rewrite Qc_of_nat_S, IH.
  - rewrite filter_cons_False, fmap_cons by done. cbn [sum_Qc foldr].
    fold (sum_Qc (bool_number <$> bs)). rewrite IH. simpl. ring.
Qed.

(** The mean of the pass/fail column is the share of passes among the
    known values. *)
Lemma mean_passed rows :
  mean (passed_column rows) = share_of_passes (Passed <$> rows).
Proof.
  unfold mean, share_of_passes, passed_column.
  rewrite dropna_fmap.
  destruct (dropna (Passed <$> rows)) as [|b bs]; [done|].
  change (Some (average (bool_number <$> b :: bs)) = Some
    (Qc_of_nat (length (filter (λ b, b = true) (b :: bs)))
     / Qc_of_nat (length (b :: bs)))).
  unfold average. by rewrite sum_bool_number, length_fmap.
Qed.

(** *** Pearson's coefficient *)

Lemma sum_Qc_zero l : Forall (λ x, x = 0) l → sum_Qc l = 0.
Proof. induction 1 as [|x l -> _ IH]; simpl; [done|]. rewrite IH. ring. Qed.

Lemma sum_Qc_const c l :
  Forall (λ x, x = c) l → sum_Qc l = Qc_of_nat (length l) * c.
Proof.
  induction 1 as [|x l -> _ IH]; simpl.
  - rewrite Qc_of_nat_0. ring.
  - rewrite Qc_of_nat_S, IH. ring.
Qed.

Lemma average_const c l :
  l ≠ [] → Forall (λ x, x = c) l → average l = c.
Proof.
  intros Hne Hc. unfold average. rewrite (sum_Qc_const c l Hc).
  field. apply Qc_of_nat_nonzero. destruct l; [done|simpl; lia].
Qed.

Lemma deviations_const c l :
  Forall (λ x, x = c) l → Forall (λ d, d = 0) (deviations l).
Proof.
  intros Hc. destruct (decide (l = [])) as [->|Hne]; [constructor|].
  unfold deviations. rewrite (average_const c l Hne Hc).
  apply Forall_fmap. eapply Forall_impl; [exact Hc|].
  intros x ->. simpl. ring.
Qed.

Lemma sum_products_zero_l xs ys :
  Forall (λ d, d = 0) xs → sum_products xs ys = 0.
Proof.
  unfold sum_products. intros Hx. apply sum_Qc_zero.
  revert ys. induction Hx as [|x xs -> _ IH]; intros [|y ys]; simpl;
    try constructor; [ring|apply IH].
Qed.

Lemma sum_squares_const l : constant l → sum_squares l = 0.
Proof.
  intros [c Hc]. unfold sum_squares.
  apply sum_products_zero_l. by apply (deviations_const c).
Qed.

Lemma Qc_square_nonneg (x : Qc) : 0 ≤ x * x.
Proof.
  destruct (Qclt_le_dec x 0) as [Hneg|Hpos].
  - replace (x * x) with ((- x) * (- x)) by ring.
    assert (0 ≤ - x) as H.
    { apply Qclt_le_weak, Qcopp_le_compat in Hneg. exact Hneg. }
    by apply Qcmult_nonneg_nonneg.
  - by apply Qcmult_nonneg_nonneg.
Qed.

Lemma sum_products_self_nonneg l : 0 ≤ sum_products l l.
Proof.
  unfold sum_products. induction l as [|x l IH]; simpl; [done|].
  apply Qcplus_nonneg_nonneg; [apply Qc_square_nonneg|exact IH].
Qed.

Lemma Qc_sum_zero (a b : Qc) : 0 ≤ a → 0 ≤ b → a + b = 0 → a = 0 ∧ b = 0.
Proof.
  intros Ha Hb Hab.
  assert (a = 0) as ->.
  { apply Qcle_antisym; [|done].
    replace a with (- b) by (rewrite <- (Qcplus_0_r (- b)), <- Hab; ring).
    apply Qcopp_le_compat in Hb. exact Hb. }
  split; [done|]. by rewrite Qcplus_0_l in Hab.
Qed.

Lemma sum_products_self_zero l :
  sum_products l l = 0 → Forall (λ d, d = 0) l.
Proof.
  induction l as [|x l IH]; [constructor|].
  unfold sum_products. simpl. intros H.
  apply Qc_sum_zero in H as [Hx Hl];
    [|apply Qc_square_nonneg|apply sum_products_self_nonneg].
  constructor; [|by apply IH].
  by destruct (Qcmult_integral _ _ Hx).
Qed.

(** A column has no variance exactly when it takes one value only. *)
Lemma sum_squares_zero_iff l : sum_squares l = 0 ↔ constant l.
Proof.
  split; [|apply sum_squares_const].
  unfold sum_squares, deviations. intros H%sum_products_self_zero.
  exists (average l). apply Forall_fmap in H.
  eapply Forall_impl; [exact H|]. intros x Hx. simpl in Hx.
  rewrite <- (Qcplus_0_l (average l)), <- Hx. ring.
Qed.

Lemma constant_short (l : list Qc) : (length l < 2)%nat → constant l.
Proof.
  destruct l as [|x [|y l]]; simpl; intros Hl; [| |lia].
  - exists 0. constructor.
  - exists x. by repeat constructor.
Qed.

Lemma pearson_of_spec ps :
  pearson_of ps
  = if decide (ps = [] ∨ sum_squares ps.*1 * sum_squares ps.*2 = 0) then None
    else Some {| pearson_cov :=
                   sum_products (deviations ps.*1) (deviations ps.*2);
                 pearson_var := sum_squares ps.*1 * sum_squares ps.*2 |}.
Proof.
  unfold pearson_of, sum_squares. destruct ps as [|p ps].
  - by rewrite decide_True by (by left).
  - destruct (decide (_ = 0)) as [E|E].
    + by rewrite decide_True by (by right).
    + rewrite decide_False; [done|]. by intros [?|?].
Qed.

Lemma pearson_of_None ps :
  pearson_of ps = None ↔ ps = [] ∨ constant ps.*1 ∨ constant ps.*2.
Proof.
  rewrite pearson_of_spec. case_decide as H.
  - split; [intros _|done]. destruct H as [->|H]; [by left|right].
    apply Qcmult_integral in H as [H|H]; [left|right];
      by apply sum_squares_zero_iff.
  - split; [done|]. intros [->|[Hc|Hc]]; exfalso; apply H; [by left|right..];
      apply sum_squares_zero_iff in Hc; rewrite Hc; ring.
Qed.

Lemma pearson_of_short ps : (length ps < 2)%nat → pearson_of ps = None.
Proof.
  intros Hl. apply pearson_of_None. right. left.
  apply constant_short. by rewrite length_fmap.
Qed.

Lemma complete_pairs_rows (f g : record → option Qc) rows :
  complete_pairs (f <$> rows) (g <$> rows)
  = omap (λ r, complete_pair (f r, g r)) rows.
Proof.
  unfold complete_pairs. induction rows as [|r rows IH]; [done|].
  cbn. destruct (f r), (g r); [f_equal|..]; exact IH.
Qed.

Lemma track_corr_observations df k :
  track_corr df k = pearson_of (observations (track_rows df k)).
Proof. unfold track_corr, nancorr. by rewrite complete_pairs_rows. Qed.

Lemma track_rows_nonnull df k :
  is_null k = false → track_rows df k = filter (λ r, Track r = k) df.
Proof.
  intros Hk. unfold track_rows. apply list_filter_iff. intros r.
  unfold track_eq. rewrite Hk. simpl. rewrite andb_true_r.
  rewrite andb_true_iff, negb_true_iff, bool_decide_eq_true.
  split; [by intros [_ ?]|]. intros ->. done.
Qed.

Lemma track_rows_null df k : is_null k = true → track_rows df k = [].
Proof.
  intros Hk. unfold track_rows, track_eq. rewrite Hk.
  induction df as [|r df IH]; [done|].
  rewrite filter_cons_False; [done|]. by rewrite andb_false_r.
Qed.

Lemma mean_all_null {A} (f : A → option Qc) (rows : list A) :
  Forall (λ r, f r = None) rows → mean (f <$> rows) = None.
Proof.
  intros H. apply mean_no_value, dropna_nil, Forall_fmap.
  eapply Forall_impl; [exact H|]. done.
Qed.

Lemma mean_None_iff {A} (f : A → option Qc) (rows : list A) :
  mean (f <$> rows) = None ↔ Forall (λ r, f r = None) rows.
Proof.
  split; [|apply mean_all_null].
  unfold mean. destruct (dropna (f <$> rows)) as [|x xs] eqn:E; [|done].
  intros _. apply dropna_nil in E. by apply Forall_fmap in E.
Qed.

Lemma dropna_cons_Some {A} (x : A) col :
  dropna (Some x :: col) = x :: dropna col.
Proof. done. Qed.

Lemma dropna_cons_None {A} (col : list (option A)) :
  dropna (None :: col) = dropna col.
Proof. done. Qed.

(** The known pass/fail values of a list of rows and the passes among
    them, counted on the rows themselves. *)
Lemma known_passed_rows rows :
  length (dropna (Passed <$> rows))
  = length (filter (λ r, Passed r ≠ None) rows).
Proof.
  induction rows as [|r rows IH]; [done|].
  rewrite fmap_cons. destruct (Passed r) as [b|] eqn:Hb.
  - rewrite filter_cons_True by (by rewrite Hb).
    rewrite dropna_cons_Some. simpl. by rewrite IH.
  - rewrite filter_cons_False by (rewrite Hb; by intros ?).
    by rewrite dropna_cons_None.
Qed.

Lemma passes_rows rows :
  length (filter (λ b, b = true) (dropna (Passed <$> rows)))
  = length (filter (λ r, Passed r = Some true) rows).
Proof.
  induction rows as [|r rows IH]; [done|].
  rewrite fmap_cons. destruct (Passed r) as [[]|] eqn:Hb.
  - rewrite dropna_cons_Some, !filter_cons_True by (done || by rewrite Hb).
    simpl. by rewrite IH.
  - rewrite dropna_cons_Some, !filter_cons_False by (done || by rewrite Hb).
    exact IH.
  - rewrite dropna_cons_None, filter_cons_False by (by rewrite Hb).
    exact IH.
Qed.

Lemma pass_rate_of_rows rows :
  mean (passed_column rows)
  = if decide (filter (λ r, Passed r ≠ None) rows = []) then None
    else Some (Qc_of_nat (length (filter (λ r, Passed r = Some true) rows))
               / Qc_of_nat (length (filter (λ r, Passed r ≠ None) rows))).
Proof.
  rewrite mean_passed. unfold share_of_passes.
  rewrite <- passes_rows, <- known_passed_rows.
  destruct (dropna (Passed <$> rows)) as [|b bs] eqn:E.
  - rewrite decide_True; [done|].
    apply length_zero_iff_nil. by rewrite <- known_passed_rows, E.
  - rewrite decide_False; [done|]. intros H%length_zero_iff_nil.
    by rewrite <- known_passed_rows, E in H.
Qed.

(** C3: pass rates and means. The three grouped views are produced. For
    every group of a grouped view, among the rows of the frame that have
    the key of the group, counted on the frame itself: the pass rate is
    the number of rows that passed divided by the number of rows whose
    pass/fail value is known, the rows without one counting on neither
    side, and it is null, not 0, when no row has one; the average of a
    numeric column is null exactly when no row of the group has a value
    in that column. *)
Theorem pass_rate_over_known_values (df : list record) :
  ∃ stats,
    compute_statistics df = inr stats
    ∧ stats !! "track" = Some (Table (groupby_agg Track df))
    ∧ stats !! "cohort" = Some (Table (groupby_agg Cohort df))
    ∧ stats !! "income"
      = Some (Table (groupby_agg (λ r, PyBool (IncomeStudent r)) df))
    ∧ ∀ key k row, groupby_agg key df !! k = Some row →
        let rows := filter (λ r, key r = k) df in
        let known := filter (λ r, Passed r ≠ None) rows in
        let passes := filter (λ r, Passed r = Some true) rows in
        rows ≠ []
        ∧ (known = [] → PassRate row = None)
        ∧ (known ≠ [] →
             PassRate row
             = Some (Qc_of_nat (length passes) / Qc_of_nat (length known)))
        ∧ Forall (λ fa : (record → option Qc) * (agg_row → option Qc),
                    fa.2 row = None ↔ Forall (λ r, fa.1 r = None) rows)
                 numeric_columns.
Proof.
  destruct (compute_statistics_views df)
    as (stats & a & Hs & _ & Ht & Hc & Hi & _).
  exists stats. repeat (split; [done|]).
  intros key k row Hrow rows known passes.
  assert (row = agg rows ∧ rows ≠ []) as [-> Hne].
  { unfold groupby_agg in Hrow. rewrite lookup_fmap in Hrow.
    destruct (groupby key df !! k) as [g|] eqn:Hg; [|done].
    apply groupby_lookup_Some in Hg as [Hg Hne]. injection Hrow as <-.
    assert (is_null k = false) as Hk.
    { destruct g as [|r g']; [done|].
      assert (r ∈ group_rows key df k) as Hr by (rewrite <- Hg; by left).
      by apply group_rows_elem in Hr as (_ & _ & ?). }
    rewrite (group_rows_nonnull key df k Hk) in Hg. by subst g. }
  split; [done|]. simpl PassRate. rewrite pass_rate_of_rows.
  fold known passes. split; [|split].
  - intros E. by rewrite decide_True.
  - intros E. by rewrite decide_False.
  - unfold numeric_columns.
    repeat (apply Forall_cons; split; [apply mean_None_iff|]).
    apply Forall_nil_2.
Qed.

Lemma pass_rate_over_known_values_example :
  ∃ row,
    groupby_agg Track Sample.with_gaps !! PyStr "A" = Some row
    ∧ PassRate row = Some (Q2Qc (2 # 3))
    ∧ MathAvg row ≠ None
    ∧ HistoryAvg row = None.
Proof.
  destruct (pass_rate_over_known_values Sample.with_gaps)
    as (stats & _ & _ & _ & _ & H).
  exists (agg (group_rows Track Sample.with_gaps (PyStr "A"))).
  split; [reflexivity|].
  destruct (H Track (PyStr "A")
              (agg (group_rows Track Sample.with_gaps (PyStr "A"))))
    as (_ & _ & Hrate & Hnum); [reflexivity|].
  split; [|split].
  - rewrite Hrate by done. vm_compute.
    repeat first [reflexivity | apply Qc_is_canon | f_equal].
  - apply Forall_cons in Hnum as [Hm _]. simpl in Hm.
    rewrite Hm. intros [[=] _]%Forall_cons.
  - do 3 apply Forall_cons in Hnum as [_ Hnum].
    apply Forall_cons in Hnum as [Hh _]. simpl in Hh.
    apply Hh. repeat constructor.
Defined.

(** C5: the mathematics comparison. Both views are produced, and under
    every key the comparison holds the very value that the track view
    holds as [MathAvg]; the keys are those of the track view, among them
    the track of every row that has one. *)
Theorem math_comparison_matches_track_view (df : list record) :
  ∃ stats t m,
    compute_statistics df = inr stats
    ∧ stats !! "track" = Some (Table t)
    ∧ stats !! "math_comparison" = Some (Series m)
    ∧ (∀ g, m !! g = MathAvg <$> t !! g)
    ∧ (∀ r, r ∈ df → is_null (Track r) = false →
         ∃ row, t !! Track r = Some row ∧ m !! Track r = Some (MathAvg row)).
Proof.
  destruct (compute_statistics_views df)
    as (stats & a & Hs & _ & Ht & _ & _ & _ & Hm & _).
  exists stats, (groupby_agg Track df), (groupby_mean Track Math df).
  split; [done|]. split; [done|]. split; [done|].
  assert (Heq : ∀ g, groupby_mean Track Math df !! g
                     = MathAvg <$> groupby_agg Track df !! g).
  { intros g. unfold groupby_mean, groupby_agg. rewrite !lookup_fmap.
    by destruct (groupby Track df !! g). }
  split; [exact Heq|]. intros r Hin Hnull.
  exists (agg (group_rows Track df (Track r))).
  rewrite Heq. unfold groupby_agg. rewrite lookup_fmap.
  by rewrite (groupby_lookup_elem Track df r Hin Hnull).
Qed.

Lemma math_comparison_matches_track_view_example :
  ∃ stats t m row,
    compute_statistics Sample.frame = inr stats
    ∧ stats !! "track" = Some (Table t)
    ∧ stats !! "math_comparison" = Some (Series m)
    ∧ t !! PyStr "A" = Some row
    ∧ m !! PyStr "A" = Some (MathAvg row).
Proof.
  destruct (math_comparison_matches_track_view Sample.frame)
    as (stats & t & m & Hs & Ht & Hm & _ & Hrow).
  destruct (Hrow (Sample.cleaned "A" (Some (Qc_of_Z 80)) (Some true)
                    (Some (Qc_of_Z 90)) (Some (Qc_of_Z 10))))
    as (row & Hr & Hmr); [by left|done|].
  by exists stats, t, m, row.
Defined.

Lemma corr_list_lookup df a :
  corr_loop (unique (Track <$> df)) df ∅ = inr a →
  ∀ k, a !! k = if decide (k ∈ Track <$> df) then Some (track_corr df k)
                else None.
Proof.
  intros Ha k.
  destruct (corr_loop_spec (unique (Track <$> df)) df ∅) as (m & Hm & Hlook).
  rewrite Hm in Ha. injection Ha as <-. rewrite Hlook, lookup_empty.
  destruct (decide (k ∈ unique (Track <$> df))) as [H|H];
    rewrite unique_elem in H;
    [by rewrite decide_True | by rewrite decide_False].
Qed.

(** The observations of a list of rows, read off the rows themselves:
    the attendance and the project score of the rows that have both, in
    their order. *)
Lemma observations_both rows :
  observations rows
  = (λ r, (default 0 (Attendance r), default 0 (ProjectScore r)))
      <$> filter (λ r, Attendance r ≠ None ∧ ProjectScore r ≠ None) rows.
Proof.
  unfold observations. induction rows as [|r rows IH]; [done|].
  cbn [omap list_omap]. rewrite IH.
  destruct (Attendance r) as [x|] eqn:Hx, (ProjectScore r) as [y|] eqn:Hy;
    simpl.
  - rewrite filter_cons_True by (by rewrite Hx, Hy).
    by rewrite fmap_cons, Hx, Hy.
  - rewrite filter_cons_False; [done|]. rewrite Hy. by intros [_ ?].
  - rewrite filter_cons_False; [done|]. rewrite Hx. by intros [? _].
  - rewrite filter_cons_False; [done|]. rewrite Hx. by intros [? _].
Qed.

(** C6: the correlation view. The view is produced for every frame and
    its keys are the distinct tracks. Under a track it holds Pearson's
    coefficient of the attendance and the project score, taken over the
    rows of the frame that have that track and have both an attendance
    and a project score, no other row counting. The entry is null, and
    present, when fewer than two rows have both and when either column
    takes one value only on them, which is when its sum of squared
    deviations is zero; it is null in no other case, and is then the
    covariance sum over the square root of the product of the two sums of
    squares. *)
Theorem correlation_by_track (df : list record) :
  ∃ stats a,
    compute_statistics df = inr stats
    ∧ stats !! "attendance_project_corr" = Some (CorrSeries a)
    ∧ (∀ k, is_Some (a !! k) ↔ k ∈ Track <$> df)
    ∧ (∀ k, k ∈ Track <$> df → is_null k = true → a !! k = Some None)
    ∧ (∀ k, k ∈ Track <$> df → is_null k = false →
         let both :=
           filter (λ r, Attendance r ≠ None ∧ ProjectScore r ≠ None)
                  (filter (λ r, Track r = k) df) in
         let xs := (λ r, default 0 (Attendance r)) <$> both in
         let ys := (λ r, default 0 (ProjectScore r)) <$> both in
         ((length both < 2)%nat → a !! k = Some None)
         ∧ (constant xs ∨ constant ys → a !! k = Some None)
         ∧ (sum_squares xs = 0%Qc ∨ sum_squares ys = 0%Qc →
              a !! k = Some None)
         ∧ (a !! k = Some None ↔ both = [] ∨ constant xs ∨ constant ys)
         ∧ (both ≠ [] → sum_squares xs ≠ 0%Qc → sum_squares ys ≠ 0%Qc →
              a !! k
              = Some (Some {| pearson_cov :=
                                sum_products (deviations xs) (deviations ys);
                              pearson_var :=
                                (sum_squares xs * sum_squares ys)%Qc |}))).
Proof.
  destruct (compute_statistics_views df)
    as (stats & a & Hs & Ha & _ & _ & _ & _ & _ & Hc & _).
  pose proof (corr_list_lookup df a Ha) as Hlook.
  exists stats, a. split; [done|]. split; [done|]. split; [|split].
  - intros k. rewrite Hlook. case_decide; [by split|].
    split; [by intros [? ?]|done].
  - intros k Hk Hnull. rewrite Hlook, decide_True by done.
    by rewrite track_corr_observations, track_rows_null.
  - intros k Hk Hnull both xs ys. rewrite Hlook, decide_True by done.
    rewrite track_corr_observations, track_rows_nonnull by done.
    rewrite observations_both. fold both.
    set (obs := (λ r, (default 0 (Attendance r), default 0 (ProjectScore r)))
                  <$> both).
    assert (obs.*1 = xs) as Hxs
      by (unfold obs; by rewrite <- list_fmap_compose).
    assert (obs.*2 = ys) as Hys
      by (unfold obs; by rewrite <- list_fmap_compose).
    assert (obs = [] ↔ both = []) as Hnil.
    { unfold obs. split; [apply fmap_nil_inv|by intros ->]. }
    assert (length obs = length both) as Hlen
      by (unfold obs; by rewrite length_fmap).
    split; [|split; [|split; [|split]]].
    + intros Hl. f_equal. apply pearson_of_short. by rewrite Hlen.
    + intros Hcst. f_equal. apply pearson_of_None. right.
      by rewrite Hxs, Hys.
    + intros Hz. f_equal. apply pearson_of_None. right.
      rewrite Hxs, Hys.
      destruct Hz as [Hz|Hz]; [left|right]; by apply sum_squares_zero_iff.
    + rewrite <- Hnil, <- Hxs, <- Hys, <- pearson_of_None.
      split; [by intros [= ?]|by intros ->].
    + intros Hne Hx Hy. f_equal. rewrite pearson_of_spec, Hxs, Hys.
      rewrite decide_False; [done|]. intros [?%Hnil|H]; [done|].
      by apply Qcmult_integral in H as [?|?].
Qed.

Lemma correlation_by_track_example :
  ∃ stats a,
    compute_statistics Sample.with_gaps = inr stats
    ∧ stats !! "attendance_project_corr" = Some (CorrSeries a)
    ∧ a !! PyStr "A"
      = Some (Some {| pearson_cov := Q2Qc (-1900 # 3);
                      pearson_var := Q2Qc (3640000 # 9) |})
    ∧ a !! PyStr "B" = Some None.
Proof.
  destruct (correlation_by_track Sample.with_gaps)
    as (stats & a & Hs & Ha & _ & _ & Hk).
  exists stats, a. split; [done|]. split; [done|]. split.
  - destruct (Hk (PyStr "A")) as (_ & _ & _ & _ & Hval); [|done|].
    { apply list_elem_of_fmap.
      exists (Sample.cleaned "A" None None (Some (Qc_of_Z 70)) None).
      split; [done|]. do 2 right. left. }
    rewrite Hval.
    + vm_compute. repeat first [reflexivity | apply Qc_is_canon | f_equal].
    + done.
    + by vm_compute.
    + by vm_compute.
  - destruct (Hk (PyStr "B")) as (Hshort & _); [|done|].
    { apply list_elem_of_fmap.
      exists (Sample.cleaned "B" None None None None).
      split; [done|]. do 5 right. left. }
    apply Hshort. simpl. lia.
Defined.

(** C1 as stated fails: the aggregation of the empty frame raises nothing
    and returns the seven views, the grouped ones empty and every global
    mean null. *)
Lemma empty_frame_is_aggregated :
  compute_statistics []
  = inr (<["global" := Global (GlobalRow None None None None None None None)]>
         (<["attendance_project_corr" := CorrSeries ∅]>
          (<["math_comparison" := Series ∅]>
           (<["history_by_track" := Lists ∅]>
            (<["income" := Table ∅]>
             (<["cohort" := Table ∅]>
              (<["track" := Table ∅]> ∅))))))).
Proof. reflexivity. Qed.

(** C1, amended: the aggregation of any frame, empty or not, raises
    nothing and returns the seven views under their names. Every row with
    a track has its track as a key of the track view, of the history
    lists and of the mathematics comparison, every row has its track as a
    key of the correlation view and its income flag as a key of the income
    view, and every row with a cohort has its cohort as a key of the
    cohort view; the entry of a group is computed from the rows of the
    group, and is there whether or not they hold any data. *)
Theorem statistics_for_every_frame (df : list record) :
  ∃ stats a,
    compute_statistics df = inr stats
    ∧ dom stats
      = list_to_set
          ["track"; "cohort"; "income"; "history_by_track";
           "math_comparison"; "attendance_project_corr"; "global"]
    ∧ stats !! "track" = Some (Table (groupby_agg Track df))
    ∧ stats !! "cohort" = Some (Table (groupby_agg Cohort df))
    ∧ stats !! "income"
      = Some (Table (groupby_agg (λ r, PyBool (IncomeStudent r)) df))
    ∧ stats !! "history_by_track"
      = Some (Lists (groupby_lists Track History df))
    ∧ stats !! "math_comparison" = Some (Series (groupby_mean Track Math df))
    ∧ stats !! "attendance_project_corr" = Some (CorrSeries a)
    ∧ stats !! "global" = Some (Global (global_agg df))
    ∧ (∀ r, r ∈ df → is_null (Track r) = false →
         let rows := group_rows Track df (Track r) in
         groupby_agg Track df !! Track r = Some (agg rows)
         ∧ groupby_lists Track History df !! Track r = Some (History <$> rows)
         ∧ groupby_mean Track Math df !! Track r
           = Some (mean (Math <$> rows)))
    ∧ (∀ r, r ∈ df → a !! Track r = Some (track_corr df (Track r)))
    ∧ (∀ r, r ∈ df → is_null (Cohort r) = false →
         groupby_agg Cohort df !! Cohort r
         = Some (agg (group_rows Cohort df (Cohort r))))
    ∧ (∀ r, r ∈ df →
         groupby_agg (λ r, PyBool (IncomeStudent r)) df
           !! PyBool (IncomeStudent r)
         = Some (agg (group_rows (λ r, PyBool (IncomeStudent r)) df
                        (PyBool (IncomeStudent r))))).
Proof.
  destruct (compute_statistics_views df)
    as (stats & a & Hs & Ha & Ht & Hc & Hi & Hh & Hm & Hcorr & Hg & Hdom).
  exists stats, a. repeat (split; [done|]).
  split; [|split; [|split]].
  - intros r Hin Hnull rows.
    unfold groupby_agg, groupby_lists, groupby_mean. rewrite !lookup_fmap.
    by rewrite (groupby_lookup_elem Track df r Hin Hnull).
  - intros r Hin. rewrite (corr_list_lookup df a Ha), decide_True; [done|].
    by apply list_elem_of_fmap_2.
  - intros r Hin Hnull. unfold groupby_agg. rewrite lookup_fmap.
    by rewrite (groupby_lookup_elem Cohort df r Hin Hnull).
  - intros r Hin. unfold groupby_agg. rewrite lookup_fmap.
    by rewrite (groupby_lookup_elem (λ r, PyBool (IncomeStudent r)) df r Hin).
Qed.

Lemma statistics_for_every_frame_example :
  groupby_agg Track Sample.frame !! PyStr "B"
  = Some (agg (group_rows Track Sample.frame (PyStr "B"))).
Proof.
  destruct (statistics_for_every_frame Sample.frame)
    as (stats & a & _ & _ & _ & _ & _ & _ & _ & _ & _ & Htrack & _).
  apply (Htrack (Sample.cleaned "B" None None None None)); [|done].
  do 2 right. left.
Defined.

(** ** The scenario of the specification *)

(** Equalities between computed values: rationals are compared by their
    reduced fractions. *)
Ltac by_evaluation :=
  vm_compute;
  repeat first [ reflexivity | apply Qc_is_canon | f_equal ].

Example two_tracks_cleaned :
  load_and_clean_excel
    [("student_grades_2023.xlsx", Sample.sheet_named_NA);
     ("student_grades_2024.xlsx", Sample.two_tracks)]
  = inr Sample.frame.
Proof. by_evaluation. Qed.

Example track_view_A :
  (λ row, (Students row, MathAvg row, PassRate row))
    <$> groupby_agg Track Sample.frame !! PyStr "A"
  = Some (2%nat, Some (Qc_of_Z 85), Some (Q2Qc (1 # 2))).
Proof. by_evaluation. Qed.

Example track_view_B :
  groupby_agg Track Sample.frame !! PyStr "B" = Some (Sample.nothing_known 2).
Proof. reflexivity. Qed.

Example global_view :
  g_Math (global_agg Sample.frame) = Some (Qc_of_Z 85)
  ∧ g_Passed (global_agg Sample.frame) = Some (Q2Qc (1 # 2)).
Proof. split; by_evaluation. Qed.

Example correlation_A :
  track_corr Sample.frame (PyStr "A")
  = Some {| pearson_cov := Qc_of_Z (-50); pearson_var := Qc_of_Z 2500 |}.
Proof. by_evaluation. Qed.

Example waived_attendance :
  coerce_numeric (replace (PyStr "Waived")) = None
  ∧ coerce_numeric (replace (PyStr "92.5 %")) = Some (Q2Qc (185 # 2))
  ∧ coerce_numeric (replace (PyStr "12.34.56")) = Some (Q2Qc (617 # 50)).
Proof. repeat split; by_evaluation. Qed.

Example reprs :
  astype_str (PyFloat (PyFloatOf false 925 2)) = "92.5"
  ∧ astype_str (PyFloat (PyFloatOf false 85 2)) = "85.0"
  ∧ astype_str (PyFloat (PyFloatOf true 5 0)) = "-0.5"
  ∧ astype_str (PyFloat (PyFloatOf false 1 (-4))) = "1e-05"
  ∧ astype_str (PyFloat (PyFloatOf false 15 17)) = "1.5e+16"
  ∧ astype_str (PyInt (-5)) = "-5".
Proof. repeat split. Qed.

(** * Further properties *)

Local Close Scope Qc_scope.

(** ** More on the loader *)

(** *** The file that is read *)

Lemma later_file_cases best f :
  (later_file best f = f ∧ String.le best.1 f.1)
  ∨ (later_file best f = best ∧ String.le f.1 best.1).
Proof.
  unfold later_file, String.le.
  destruct (String.leb best.1 f.1) eqn:E; [by left|right].
  split; [done|]. destruct (String.leb_total best.1 f.1) as [H|H].
  - by rewrite H in E.
  - by rewrite H.
Qed.

Lemma foldl_later_file fs acc :
  let r := foldl later_file acc fs in
  (r = acc ∨ r ∈ fs) ∧ String.le acc.1 r.1 ∧ ∀ g, g ∈ fs → String.le g.1 r.1.
Proof.
  revert acc. induction fs as [|f fs IH]; intros acc; simpl.
  - split; [by left|]. split; [done|]. by intros g ?%elem_of_nil.
  - destruct (IH (later_file acc f)) as (Hin & Hle & Hall).
    destruct (later_file_cases acc f) as [[E Hf]|[E Hf]]; rewrite E in *.
    + split; [right; destruct Hin as [->|?]; [by left|by right]|].
      split; [by etrans|].
      intros g [->|Hg]%elem_of_cons; [done|by apply Hall].
    + split; [destruct Hin as [->|?]; [by left|right; by right]|].
      split; [done|].
      intros g [->|Hg]%elem_of_cons; [by etrans|by apply Hall].
Qed.

(** X1: the file that is read. Without any matching file the load raises
    [FileNotFoundError]; otherwise it returns the sheets of one of the
    files, one whose name no other name follows in the order of the
    sort. *)
Theorem auto_load_excel_latest (files : list (string * workbook)) :
  (files = [] → auto_load_excel files = inl FileNotFoundError)
  ∧ (files ≠ [] →
       ∃ name sheets,
         (name, sheets) ∈ files
         ∧ auto_load_excel files = inr sheets
         ∧ ∀ f, f ∈ files → String.leb f.1 name = true).
Proof.
  split; [by intros ->|]. intros Hne. destruct files as [|f fs]; [done|].
  pose proof (foldl_later_file fs f) as (Hin & Hle & Hall). simpl in *.
  destruct (foldl later_file f fs) as [name sheets] eqn:E.
  exists name, sheets. split; [|split; [done|]].
  - destruct Hin as [<-|?]; [by left|by right].
  - intros g [->|Hg]%elem_of_cons; apply Is_true_true; [exact Hle|by apply Hall].
Qed.

Lemma auto_load_excel_latest_example :
  ∃ name sheets,
    (name, sheets)
      ∈ [("student_grades_2024.xlsx", Sample.two_tracks);
         ("student_grades_2023.xlsx", Sample.sheet_named_NA)]
    ∧ auto_load_excel
        [("student_grades_2024.xlsx", Sample.two_tracks);
         ("student_grades_2023.xlsx", Sample.sheet_named_NA)]
      = inr sheets
    ∧ ∀ f, f ∈ [("student_grades_2024.xlsx", Sample.two_tracks);
                ("student_grades_2023.xlsx", Sample.sheet_named_NA)] →
           String.leb f.1 name = true.
Proof.
  by apply (auto_load_excel_latest
              [("student_grades_2024.xlsx", Sample.two_tracks);
               ("student_grades_2023.xlsx", Sample.sheet_named_NA)]).
Defined.

(** *** Rows in, rows out *)

Lemma for_each_returns {A B} (f : A → except B) l :
  (∀ a, a ∈ l → ∃ b, f a = inr b) → ∃ bs, for_each f l = inr bs.
Proof.
  induction l as [|a l IH]; intros H; simpl; [by eexists|].
  destruct (H a) as [b Hb]; [by left|].
  destruct IH as [bs Hbs]; [intros x Hx; apply H; by right|].
  unfold bind. rewrite Hb, Hbs. by eexists.
Qed.

Lemma for_each_error {A B} (f : A → except B) l e :
  for_each f l = inl e → ∃ a, a ∈ l ∧ f a = inl e.
Proof.
  induction l as [|a l IH]; simpl; [done|]. unfold bind.
  destruct (f a) as [e'|b] eqn:Hb.
  - intros [= <-]. exists a. split; [by left|done].
  - destruct (for_each f l) as [e'|bs]; [|done].
    intros [= <-]. destruct IH as (x & Hx & Hfx); [done|].
    exists x. split; [by right|done].
Qed.

Lemma clean_row_error name r e : clean_row name r = inl e → e = TypeError.
Proof.
  unfold clean_row, bind.
  destruct (replace (raw_IncomeStudent r)); simpl; by intros [= <-].
Qed.

Lemma clean_sheets_rows sheets df :
  clean_sheets sheets = inr df →
  ∃ dfs,
    Forall2 (λ s d, Forall2 (λ r rec, clean_row s.1 r = inr rec) s.2 d)
            sheets dfs
    ∧ df = concat dfs.
Proof.
  unfold clean_sheets, bind, pd_concat.
  destruct (for_each clean_sheet sheets) as [e|dfs] eqn:Hdfs; [done|].
  apply for_each_inv in Hdfs. destruct dfs as [|d dfs]; [done|].
  intros [= <-]. exists (d :: dfs). split; [|done].
  eapply Forall2_impl; [exact Hdfs|]. intros s d' Hs.
  by apply for_each_inv in Hs.
Qed.

(** X2: rows in, rows out. When the sheets are cleaned, the frame is the
    cleaned rows of the first sheet in their order, followed by those of
    the second, and so on: each row of each sheet gives one row of the
    frame, at its place, and the frame has as many rows as the sheets
    together. *)
Theorem cleaning_keeps_every_row (sheets : workbook) (df : list record) :
  clean_sheets sheets = inr df →
  ∃ dfs,
    Forall2 (λ s d, Forall2 (λ r rec, clean_row s.1 r = inr rec) s.2 d)
            sheets dfs
    ∧ df = concat dfs
    ∧ length df = sum_list (length <$> sheets.*2).
Proof.
  intros (dfs & Hall & ->)%clean_sheets_rows. exists dfs.
  split; [done|]. split; [done|].
  induction Hall as [|s d sheets dfs Hs _ IH]; [done|].
  simpl. rewrite length_app, IH. f_equal.
  symmetry. by eapply Forall2_length.
Qed.

Lemma cleaning_keeps_every_row_example :
  ∃ dfs,
    Forall2 (λ s d, Forall2 (λ r rec, clean_row s.1 r = inr rec) s.2 d)
            Sample.two_tracks dfs
    ∧ Sample.frame = concat dfs
    ∧ length Sample.frame = sum_list (length <$> Sample.two_tracks.*2).
Proof.
  apply (cleaning_keeps_every_row Sample.two_tracks Sample.frame).
  by_evaluation.
Defined.

(** X3: when the load fails. The sheets are cleaned into a frame exactly
    when there is at least one sheet and no row has an income flag that is
    missing after the replacement of the tokens; a sheet without rows does
    no harm. Without any sheet the concatenation raises [ValueError], and
    every other failure is the [TypeError] of the income flag. *)
Theorem clean_sheets_succeeds_iff (sheets : workbook) :
  ((∃ df, clean_sheets sheets = inr df) ↔
     sheets ≠ []
     ∧ ∀ name rows r, (name, rows) ∈ sheets → r ∈ rows →
         replace (raw_IncomeStudent r) ≠ NA)
  ∧ (sheets = [] → clean_sheets sheets = inl ValueError)
  ∧ (∀ e, sheets ≠ [] → clean_sheets sheets = inl e → e = TypeError).
Proof.
  split; [split|split].
  - intros [df Hdf]. split.
    + intros ->. done.
    + intros name rows r Hs Hr Hna.
      destruct (clean_sheets_raises sheets name rows r Hs Hr Hna) as [e He].
      congruence.
  - intros [Hne Hrows]. unfold clean_sheets, bind.
    destruct (for_each_returns clean_sheet sheets) as [dfs Hdfs].
    { intros [name rows] Hs. apply for_each_returns. intros r Hr.
      apply clean_row_returns. by eapply Hrows. }
    rewrite Hdfs. apply for_each_inv, Forall2_length in Hdfs.
    destruct dfs; [by destruct sheets|]. by eexists.
  - by intros ->.
  - intros e Hne. unfold clean_sheets, bind.
    destruct (for_each clean_sheet sheets) as [e'|dfs] eqn:Hdfs.
    + intros [= <-]. apply for_each_error in Hdfs as ([name rows] & _ & Hs).
      apply for_each_error in Hs as (r & _ & Hr). by eapply clean_row_error.
    + apply for_each_inv, Forall2_length in Hdfs.
      destruct dfs; [by destruct sheets|done].
Qed.

Lemma clean_sheets_succeeds_iff_example :
  ∃ df, clean_sheets [("A", []); ("B", [Sample.row NaN NaN NaN NaN])] = inr df.
Proof.
  apply (clean_sheets_succeeds_iff
           [("A", []); ("B", [Sample.row NaN NaN NaN NaN])]).
  split; [done|]. intros name rows r Hs Hr.
  apply elem_of_cons in Hs as [[= -> ->]|Hs].
  - by apply elem_of_nil in Hr.
  - apply list_elem_of_singleton in Hs as [= -> ->].
    by apply list_elem_of_singleton in Hr as ->.
Defined.

(** *** From sheets to tracks *)

Lemma group_rows_app key d1 d2 k :
  group_rows key (d1 ++ d2)%list k
  = (group_rows key d1 k ++ group_rows key d2 k)%list.
Proof. unfold group_rows. apply filter_app. Qed.

Lemma group_rows_all key d k :
  Forall (λ rec, key rec = k) d → is_null k = false → group_rows key d k = d.
Proof.
  intros Hall Hk. unfold group_rows.
  induction Hall as [|rec d Hrec _ IH]; [done|].
  rewrite filter_cons_True, IH; [done|].
  unfold group_key. by rewrite Hrec, Hk.
Qed.

Lemma group_rows_none key d k :
  Forall (λ rec, key rec ≠ k) d → group_rows key d k = [].
Proof.
  intros Hall. unfold group_rows.
  induction Hall as [|rec d Hrec _ IH]; [done|].
  rewrite filter_cons_False, IH; [done|].
  unfold group_key. destruct (is_null (key rec)); congruence.
Qed.

Lemma cleaned_rows_track name rows d :
  Forall2 (λ r rec, clean_row name r = inr rec) rows d →
  Forall (λ rec, Track rec = replace (PyStr name)) d.
Proof.
  induction 1 as [|r rec rows d Hr _ IH]; constructor; [|done].
  by apply clean_row_track in Hr.
Qed.

Lemma replace_other_label n name :
  n ≠ name → replace (PyStr n) ≠ PyStr name.
Proof.
  intros Hne. rewrite replace_label. case_bool_decide; congruence.
Qed.

Lemma sheet_rows_of_track sheets dfs name rows :
  Forall2 (λ s d, Forall2 (λ r rec, clean_row s.1 r = inr rec) s.2 d)
          sheets dfs →
  NoDup sheets.*1 → (name, rows) ∈ sheets → name ∉ missing_tokens →
  ∃ d, Forall2 (λ r rec, clean_row name r = inr rec) rows d
       ∧ group_rows Track (concat dfs) (PyStr name) = d.
Proof.
  intros Hall. induction Hall as [|s d0 sheets dfs Hs Hrest IH];
    intros Hnd Hin Htok; [by apply elem_of_nil in Hin|].
  apply NoDup_cons in Hnd as [Hfresh Hnd]. simpl concat.
  rewrite group_rows_app. apply elem_of_cons in Hin as [<-|Hin].
  - exists d0. split; [exact Hs|].
    rewrite (group_rows_all Track d0 (PyStr name)); [|  |done].
    + rewrite <- (app_nil_r d0) at 2. f_equal.
      apply group_rows_none. apply Forall_concat.
      clear IH Hs. induction Hrest as [|s' d' sheets dfs Hs' _ IH'];
        [constructor|].
      apply not_elem_of_cons in Hfresh as [Hne Hfresh].
      apply NoDup_cons in Hnd as [_ Hnd].
      constructor; [|by apply IH'].
      apply cleaned_rows_track in Hs'.
      eapply Forall_impl; [exact Hs'|]. intros rec ->.
      apply replace_other_label. intros E. apply Hne. simpl. congruence.
    + apply cleaned_rows_track in Hs.
      eapply Forall_impl; [exact Hs|]. intros rec ->. simpl.
      by rewrite bool_decide_eq_false_2.
  - destruct (IH Hnd Hin Htok) as (d & Hd & Heq). exists d. split; [done|].
    rewrite Heq, (group_rows_none Track d0); [done|].
    apply cleaned_rows_track in Hs.
    eapply Forall_impl; [exact Hs|]. intros rec ->.
    apply replace_other_label. intros E. apply Hfresh.
    apply list_elem_of_fmap. exists (name, rows). split; [by simpl|done].
Qed.

Lemma count_cells_tracked rows :
  Forall (λ rec, is_null (Track rec) = false) rows →
  count_cells (Track <$> rows) = length rows.
Proof.
  intros H. unfold count_cells.
  induction H as [|rec rows Hrec _ IH]; [done|].
  rewrite fmap_cons, filter_cons_True by done. simpl. by rewrite IH.
Qed.

(** X4: from sheets to tracks. When the sheets, each under a name of its
    own that is none of the four tokens of the replacement, are cleaned
    and aggregated, the rows of a track are the cleaned rows of the sheet
    of that name, in their order; a sheet without rows gives no entry in
    the track view, and any other sheet gives an entry whose count of
    students is the number of rows of the sheet. *)
Theorem track_view_counts_sheet_rows
    (sheets : workbook) (df : list record) (name : string)
    (rows : list raw_row) :
  clean_sheets sheets = inr df →
  NoDup sheets.*1 → (name, rows) ∈ sheets → name ∉ missing_tokens →
  (∃ d, Forall2 (λ r rec, clean_row name r = inr rec) rows d
        ∧ group_rows Track df (PyStr name) = d)
  ∧ (rows = [] → groupby_agg Track df !! PyStr name = None)
  ∧ (rows ≠ [] →
       ∃ row, groupby_agg Track df !! PyStr name = Some row
              ∧ Students row = length rows).
Proof.
  intros (dfs & Hall & ->)%clean_sheets_rows Hnd Hin Htok.
  destruct (sheet_rows_of_track _ _ _ _ Hall Hnd Hin Htok) as (d & Hd & Heq).
  split; [by exists d|].
  unfold groupby_agg. rewrite lookup_fmap, groupby_lookup, Heq.
  pose proof (Forall2_length _ _ _ Hd) as Hlen. split.
  - intros ->. by destruct d.
  - intros Hne. destruct d as [|rec d]; [by destruct rows|].
    exists (agg (rec :: d)). split; [done|]. unfold agg. cbn [Students].
    rewrite count_cells_tracked; [done|].
    apply cleaned_rows_track in Hd.
    eapply Forall_impl; [exact Hd|]. intros r ->. simpl.
    by rewrite bool_decide_eq_false_2.
Qed.

Lemma track_view_counts_sheet_rows_example :
  ∃ row, groupby_agg Track Sample.frame !! PyStr "B" = Some row
         ∧ Students row = 2.
Proof.
  destruct (track_view_counts_sheet_rows Sample.two_tracks Sample.frame "B"
              [Sample.row NaN (PyStr "N/A") NaN NaN;
               Sample.row NaN (PyStr "N/A") NaN NaN])
    as (_ & _ & H).
  - by_evaluation.
  - apply (bool_decide_unpack _). by vm_compute.
  - right. left.
  - apply (bool_decide_unpack _). by vm_compute.
  - by apply H.
Defined.

(** ** More on the aggregator *)

Section MeanBounds.
Local Open Scope Qc_scope.

(** *** Bounds on means *)

Lemma Qc_of_nat_pos n : (0 < n)%nat → 0 < Qc_of_nat n.
Proof.
  intros Hn. unfold Qc_of_nat. rewrite <- Z2Qc_inj_0.
  apply (proj1 (Z2Qc_inj_lt 0 (Z.of_nat n))). lia.
Qed.

Lemma sum_Qc_lower lo xs :
  Forall (λ x, lo ≤ x) xs → lo * Qc_of_nat (length xs) ≤ sum_Qc xs.
Proof.
  induction 1 as [|x xs Hx _ IH]; simpl.
  - rewrite Qc_of_nat_0, Qcmult_0_r. done.
  - rewrite Qc_of_nat_S.
    replace (lo * (1 + Qc_of_nat (length xs)))
      with (lo + lo * Qc_of_nat (length xs)) by ring.
    by apply Qcplus_le_compat.
Qed.

Lemma sum_Qc_upper hi xs :
  Forall (λ x, x ≤ hi) xs → sum_Qc xs ≤ hi * Qc_of_nat (length xs).
Proof.
  induction 1 as [|x xs Hx _ IH]; simpl.
  - rewrite Qc_of_nat_0, Qcmult_0_r. done.
  - rewrite Qc_of_nat_S.
    replace (hi * (1 + Qc_of_nat (length xs)))
      with (hi + hi * Qc_of_nat (length xs)) by ring.
    by apply Qcplus_le_compat.
Qed.

Lemma average_lower lo xs :
  xs ≠ [] → Forall (λ x, lo ≤ x) xs → lo ≤ average xs.
Proof.
  intros Hne Hall. unfold average.
  assert (0 < Qc_of_nat (length xs)) as Hn
      by (apply Qc_of_nat_pos; destruct xs; [done|simpl; lia]).
  apply (Qcmult_le_mono_pos_r _ _ _ Hn).
  replace (sum_Qc xs / Qc_of_nat (length xs) * Qc_of_nat (length xs))
    with (sum_Qc xs).
  - by apply sum_Qc_lower.
  - field. intros E. rewrite E in Hn. by apply Qclt_not_eq in Hn.
Qed.

Lemma average_upper hi xs :
  xs ≠ [] → Forall (λ x, x ≤ hi) xs → average xs ≤ hi.
Proof.
  intros Hne Hall. unfold average.
  assert (0 < Qc_of_nat (length xs)) as Hn
      by (apply Qc_of_nat_pos; destruct xs; [done|simpl; lia]).
  apply (Qcmult_le_mono_pos_r _ _ _ Hn).
  replace (sum_Qc xs / Qc_of_nat (length xs) * Qc_of_nat (length xs))
    with (sum_Qc xs).
  - by apply sum_Qc_upper.
  - field. intros E. rewrite E in Hn. by apply Qclt_not_eq in Hn.
Qed.

Lemma mean_lower lo col m :
  Forall (λ x, lo ≤ x) (dropna col) → mean col = Some m → lo ≤ m.
Proof.
  unfold mean. intros Hall.
  destruct (dropna col) as [|x xs] eqn:E; [done|].
  intros [= <-]. by apply average_lower.
Qed.

Lemma mean_upper hi col m :
  Forall (λ x, x ≤ hi) (dropna col) → mean col = Some m → m ≤ hi.
Proof.
  unfold mean. intros Hall.
  destruct (dropna col) as [|x xs] eqn:E; [done|].
  intros [= <-]. by apply average_upper.
Qed.

Lemma passed_column_range rows :
  Forall (λ x, 0 ≤ x ≤ 1) (dropna (passed_column rows)).
Proof.
  unfold passed_column. rewrite dropna_fmap. apply Forall_fmap, Forall_forall.
  intros [] _; simpl; split; done.
Qed.

Lemma mean_passed_within rows : within 0 1 (mean (passed_column rows)).
Proof.
  unfold within. destruct (mean (passed_column rows)) as [m|] eqn:Hm; [|done].
  pose proof (passed_column_range rows) as Hr. simpl. split.
  - eapply mean_lower; [|exact Hm].
    eapply Forall_impl; [exact Hr|]. by intros x [? _].
  - eapply mean_upper; [|exact Hm].
    eapply Forall_impl; [exact Hr|]. by intros x [_ ?].
Qed.

Lemma group_rows_sublist key df k r : r ∈ group_rows key df k → r ∈ df.
Proof. unfold group_rows. by intros [_ ?]%list_elem_of_filter. Qed.

(** X5: pass rates stay in range. In every grouped view a pass rate that
    is not null lies between 0 and 1, and so does the pass rate of the
    global view. *)
Theorem pass_rates_stay_in_range
    (df : list record) (key : record → cell) (k : cell) (row : agg_row) :
  groupby_agg key df !! k = Some row →
  within 0 1 (PassRate row) ∧ within 0 1 (g_Passed (global_agg df)).
Proof.
  unfold groupby_agg. rewrite lookup_fmap.
  destruct (groupby key df !! k) as [rows|] eqn:Hg; [|done].
  apply groupby_lookup_Some in Hg as [-> Hne]. intros [= <-].
  split; apply mean_passed_within.
Qed.

Lemma pass_rates_stay_in_range_example :
  within 0 1 (PassRate (agg (group_rows Track Sample.with_gaps (PyStr "A"))))
  ∧ within 0 1 (g_Passed (global_agg Sample.with_gaps)).
Proof.
  by apply (pass_rates_stay_in_range Sample.with_gaps Track (PyStr "A")
              (agg (group_rows Track Sample.with_gaps (PyStr "A")))).
Defined.

End MeanBounds.

(** *** Counts, lists and keys *)

Lemma group_rows_Track_tracked df k :
  Forall tracked (group_rows Track df k).
Proof.
  apply Forall_forall. intros r (_ & <- & ?)%group_rows_elem. done.
Qed.

Lemma count_cells_filter rows :
  count_cells (Track <$> rows)
  = length (filter (λ r, is_null (Track r) = false) rows).
Proof.
  unfold count_cells. induction rows as [|r rows IH]; [done|].
  rewrite fmap_cons. destruct (is_null (Track r)) eqn:E.
  - rewrite !filter_cons_False by congruence. exact IH.
  - rewrite !filter_cons_True by done. simpl. by rewrite IH.
Qed.

Lemma filter_all {A} (P : A → Prop) `{!∀ x, Decision (P x)} (l : list A) :
  Forall P l → filter P l = l.
Proof.
  induction 1 as [|x l Hx _ IH]; [done|]. by rewrite filter_cons_True, IH.
Qed.

Lemma filter_none {A} (P : A → Prop) `{!∀ x, Decision (P x)} (l : list A) :
  Forall (λ x, ¬ P x) l → filter P l = [].
Proof.
  induction 1 as [|x l Hx _ IH]; [done|]. by rewrite filter_cons_False.
Qed.

(** X6: the history lists. The view [history_by_track] holds, under each
    track that is not null and has a row, the history marks of the rows of
    that track in the order of the frame, nulls included; the list is not
    empty and has as many entries as the track view counts students for
    that track. *)
Theorem history_lists_follow_the_frame (df : list record) :
  ∃ stats,
    compute_statistics df = inr stats
    ∧ stats !! "history_by_track"
      = Some (Lists (groupby_lists Track History df))
    ∧ stats !! "track" = Some (Table (groupby_agg Track df))
    ∧ ∀ k hist, groupby_lists Track History df !! k = Some hist →
        is_null k = false
        ∧ hist = History <$> filter (λ r, Track r = k) df
        ∧ hist ≠ []
        ∧ ∃ row, groupby_agg Track df !! k = Some row
                 ∧ Students row = length hist.
Proof.
  destruct (compute_statistics_views df)
    as (stats & a & Hs & _ & Ht & _ & _ & Hh & _).
  exists stats. split; [done|]. split; [done|]. split; [done|].
  intros k hist. unfold groupby_lists, groupby_agg. rewrite !lookup_fmap.
  destruct (groupby Track df !! k) as [rows|] eqn:Hg; [|done].
  apply groupby_lookup_Some in Hg as [-> Hne]. intros [= <-].
  assert (is_null k = false) as Hk.
  { destruct (is_null k) eqn:E; [|done].
    by rewrite group_rows_null in Hne. }
  split; [done|]. split; [by rewrite group_rows_nonnull|].
  split; [by destruct (group_rows Track df k)|].
  eexists. split; [reflexivity|]. cbn [Students agg].
  rewrite count_cells_tracked, length_fmap; [done|].
  apply group_rows_Track_tracked.
Qed.

Lemma history_lists_follow_the_frame_example :
  groupby_lists Track History Sample.frame !! PyStr "B" = Some [None; None].
Proof.
  destruct (history_lists_follow_the_frame Sample.frame)
    as (stats & _ & _ & _ & H).
  destruct (H (PyStr "B") [None; None]) as (_ & -> & _); reflexivity.
Defined.

(** X7: the count of students. In every grouped view the count of a group
    is the number of its rows whose track is not null: in the track view,
    and in any view of a frame without null track, it is the number of
    rows of the group, and is at least one; in general it is at most that
    number, and it is zero for a group whose rows all lack a track. *)
Theorem students_count_tracked_rows
    (df : list record) (key : record → cell) (k : cell) (row : agg_row) :
  groupby_agg key df !! k = Some row →
  Students row = length (filter tracked (group_rows key df k))
  ∧ (Students row ≤ length (group_rows key df k))%nat
  ∧ (0 < length (group_rows key df k))%nat
  ∧ (Forall tracked df → Students row = length (group_rows key df k))
  ∧ (key = Track → Students row = length (group_rows key df k))
  ∧ (Forall (λ r, ¬ tracked r) (group_rows key df k) → Students row = 0).
Proof.
  unfold groupby_agg. rewrite lookup_fmap.
  destruct (groupby key df !! k) as [rows|] eqn:Hg; [|done].
  apply groupby_lookup_Some in Hg as [-> Hne]. intros [= <-].
  cbn [Students agg]. rewrite count_cells_filter.
  split; [done|]. split; [apply length_filter|].
  split; [destruct (group_rows key df k); [done|simpl; lia]|].
  split; [|split].
  - intros Hall. f_equal. apply filter_all, Forall_forall.
    intros r Hr%group_rows_sublist.
    by apply (proj1 (Forall_forall _ _) Hall).
  - intros ->. f_equal. apply filter_all, group_rows_Track_tracked.
  - intros Hall. by rewrite filter_none.
Qed.

Lemma students_count_tracked_rows_example :
  Students (agg (group_rows Cohort
                   [Sample.cleaned "A" None None None None;
                    {| Track := NA; Math := None; English := None;
                       Science := None; History := None; Attendance := None;
                       ProjectScore := None; IncomeStudent := true;
                       Passed := None; Cohort := PyStr "2024" |}]
                   (PyStr "2024")))
  = 1.
Proof.
  by apply (students_count_tracked_rows
              [Sample.cleaned "A" None None None None;
               {| Track := NA; Math := None; English := None;
                  Science := None; History := None; Attendance := None;
                  ProjectScore := None; IncomeStudent := true;
                  Passed := None; Cohort := PyStr "2024" |}]
              Cohort (PyStr "2024")).
Defined.

(** X8: the keys of the views. The track view, the history lists and the
    mathematics comparison have the same keys, the tracks of the frame
    that are not null; the correlation view has one key more when some row
    has a null track, the null itself, whose entry is null. The cohort
    view has the cohorts that are not null, and the income view the income
    flags that occur. *)
Theorem keys_of_the_views (df : list record) :
  ∃ stats a,
    compute_statistics df = inr stats
    ∧ stats !! "attendance_project_corr" = Some (CorrSeries a)
    ∧ dom (groupby_lists Track History df) = dom (groupby_agg Track df)
    ∧ dom (groupby_mean Track Math df) = dom (groupby_agg Track df)
    ∧ (∀ key k, k ∈ dom (groupby_agg key df)
                ↔ k ∈ key <$> df ∧ is_null k = false)
    ∧ (∀ k, k ∈ dom a ↔ k ∈ Track <$> df)
    ∧ dom (groupby_agg Track df) ⊆ dom a
    ∧ (∀ k, k ∈ dom a → k ∉ dom (groupby_agg Track df) →
         is_null k = true ∧ a !! k = Some None).
Proof.
  destruct (compute_statistics_views df)
    as (stats & a & Hs & Ha & _ & _ & _ & _ & _ & Hc & _).
  pose proof (corr_list_lookup df a Ha) as Hlook.
  assert (Hkeys : ∀ key k, k ∈ dom (groupby_agg key df)
                           ↔ k ∈ key <$> df ∧ is_null k = false).
  { intros key k. rewrite elem_of_dom. unfold groupby_agg.
    rewrite lookup_fmap, groupby_lookup. split.
    - destruct (group_rows key df k) as [|r rows] eqn:E; [by intros [? ?]|].
      intros _. assert (r ∈ group_rows key df k) as Hr by (rewrite E; by left).
      apply group_rows_elem in Hr as (Hr & <- & Hn).
      split; [by apply list_elem_of_fmap_2|done].
    - intros [(r & -> & Hr)%list_elem_of_fmap Hn].
      assert (r ∈ group_rows key df (key r)) as Hin
          by (apply group_rows_elem; done).
      destruct (group_rows key df (key r)); [by apply elem_of_nil in Hin|].
      by eexists. }
  assert (Hdoma : ∀ k, k ∈ dom a ↔ k ∈ Track <$> df).
  { intros k. rewrite elem_of_dom, Hlook. case_decide; [by split|].
    split; [by intros [? ?]|done]. }
  exists stats, a. split; [done|]. split; [done|].
  split; [unfold groupby_lists, groupby_agg; by rewrite !dom_fmap_L|].
  split; [unfold groupby_mean, groupby_agg; by rewrite !dom_fmap_L|].
  split; [exact Hkeys|]. split; [exact Hdoma|]. split.
  - intros k Hk. apply Hdoma. by apply Hkeys in Hk as [? _].
  - intros k Hk Hnot. apply Hdoma in Hk.
    assert (is_null k = true) as Hn.
    { destruct (is_null k) eqn:E; [done|]. exfalso. apply Hnot, Hkeys. done. }
    split; [done|]. rewrite Hlook, decide_True by done.
    by rewrite track_corr_observations, track_rows_null.
Qed.

(** *** Every row is counted once *)

Lemma sum_groups_insert (m : gmap cell (list record)) k rows :
  sum_list_with (λ kr : cell * list record, tracked_in kr.2)
                (map_to_list (<[k := rows]> m))
  + tracked_in (default [] (m !! k))
  = tracked_in rows
    + sum_list_with (λ kr : cell * list record, tracked_in kr.2)
                    (map_to_list m).
Proof.
  rewrite <- insert_delete_eq.
  rewrite (map_to_list_insert (delete k m) k rows) by apply lookup_delete_eq.
  simpl. destruct (m !! k) as [old|] eqn:Hk.
  - rewrite <- (map_to_list_delete m k old Hk). simpl.
    rewrite <- Nat.add_assoc. f_equal. apply Nat.add_comm.
  - rewrite delete_id by done. simpl. unfold tracked_in at 2. simpl.
    apply Nat.add_0_r.
Qed.

Lemma sum_groups key df :
  sum_list_with (λ kr : cell * list record, tracked_in kr.2)
                (map_to_list (groupby key df))
  = length (filter (λ r, tracked r ∧ is_null (key r) = false) df).
Proof.
  induction df as [|r df IH].
  - unfold groupby. simpl. by rewrite map_to_list_empty.
  - cbn [groupby foldr]. fold (groupby key df).
    unfold group_key at 1. destruct (is_null (key r)) eqn:Hk.
    + rewrite filter_cons_False by (intros [_ ?]; congruence). exact IH.
    + pose proof (sum_groups_insert (groupby key df) (key r)
                    (r :: default [] (groupby key df !! key r))) as H.
      rewrite IH in H. unfold tracked_in at 3 in H.
      destruct (decide (tracked r)) as [Ht|Ht].
      * rewrite filter_cons_True in H by done.
        rewrite filter_cons_True by done. simpl in *.
        unfold tracked_in in H at 2. lia.
      * rewrite filter_cons_False in H by done.
        rewrite filter_cons_False by (by intros [? _]).
        unfold tracked_in in H at 2. lia.
Qed.

Lemma sum_list_with_fmap {A B} (f : B → nat) (g : A → B) (l : list A) :
  sum_list_with f (g <$> l) = sum_list_with (f ∘ g) l.
Proof. induction l as [|a l IH]; [done|]. cbn. f_equal. exact IH. Qed.

Lemma sum_list_with_ext {A} (f g : A → nat) (l : list A) :
  (∀ a, f a = g a) → sum_list_with f l = sum_list_with g l.
Proof. intros E. induction l as [|a l IH]; [done|]. cbn. by rewrite E, IH. Qed.

(** X9: every row is counted once. The counts of students of a grouped
    view add up to the number of rows of the frame that have a track and a
    key: for the track view and for the income view, the rows that have a
    track; for the cohort view, those that have a track and a cohort. No
    row is counted in two groups. *)
Theorem students_add_up (df : list record) :
  (∀ key, total_students (groupby_agg key df)
          = length (filter (λ r, tracked r ∧ is_null (key r) = false) df))
  ∧ total_students (groupby_agg Track df) = length (filter tracked df)
  ∧ total_students (groupby_agg (λ r, PyBool (IncomeStudent r)) df)
    = length (filter tracked df)
  ∧ (total_students (groupby_agg Cohort df) ≤ length (filter tracked df))%nat
  ∧ (∀ key r k1 k2, r ∈ group_rows key df k1 → r ∈ group_rows key df k2 →
       k1 = k2).
Proof.
  assert (Hgen : ∀ key, total_students (groupby_agg key df)
            = length (filter (λ r, tracked r ∧ is_null (key r) = false) df)).
  { intros key. unfold total_students, groupby_agg.
    rewrite map_to_list_fmap, sum_list_with_fmap, <- sum_groups.
    apply sum_list_with_ext. intros [k rows]. simpl.
    by rewrite count_cells_filter. }
  split; [exact Hgen|]. split; [|split; [|split]].
  - rewrite Hgen. f_equal. apply list_filter_iff. intros r.
    unfold tracked. tauto.
  - rewrite Hgen. f_equal. apply list_filter_iff. intros r. simpl. tauto.
  - rewrite Hgen.
    rewrite (list_filter_iff _ (λ r, is_null (Cohort r) = false ∧ tracked r))
      by (intros r; tauto).
    rewrite <- list_filter_filter. apply length_filter.
  - intros key r k1 k2 (_ & <- & _)%group_rows_elem (_ & <- & _)%group_rows_elem.
    done.
Qed.

(** ** The alerts *)

Section Alerts.
Local Open Scope Qc_scope.

Lemma elem_of_table_alerts what (t : gmap cell agg_row) l :
  l ∈ table_alerts what t
  ↔ ∃ k row, t !! k = Some row ∧ l ∈ row_alerts what (k, row).
Proof.
  unfold table_alerts. rewrite list_elem_of_In, in_flat_map. split.
  - intros ([k row] & Hkr & Hl). exists k, row.
    apply list_elem_of_In, elem_of_map_to_list in Hkr.
    by rewrite list_elem_of_In.
  - intros (k & row & Hkr & Hl). exists (k, row).
    split; apply list_elem_of_In; [by apply elem_of_map_to_list|done].
Qed.

Lemma elem_of_row_alerts_math what what' k k' row m :
  Low_math what' k' m ∈ row_alerts what (k, row)
  ↔ what' = what ∧ k' = k ∧ MathAvg row = Some m ∧ m < math_threshold.
Proof.
  unfold row_alerts. rewrite elem_of_app. simpl. split.
  - intros [H|H].
    + destruct (MathAvg row) as [x|]; [|by apply elem_of_nil in H].
      case_bool_decide; [|by apply elem_of_nil in H].
      by apply list_elem_of_singleton in H as [= -> -> ->].
    + destruct (PassRate row) as [x|]; [|by apply elem_of_nil in H].
      case_bool_decide; [|by apply elem_of_nil in H].
      by apply list_elem_of_singleton in H.
  - intros (-> & -> & -> & Hm). left. rewrite bool_decide_eq_true_2 by done.
    by apply list_elem_of_singleton.
Qed.

Lemma elem_of_row_alerts_rate what what' k k' row p :
  Low_pass_rate what' k' p ∈ row_alerts what (k, row)
  ↔ what' = what ∧ k' = k ∧ PassRate row = Some p ∧ p < pass_threshold.
Proof.
  unfold row_alerts. rewrite elem_of_app. simpl. split.
  - intros [H|H].
    + destruct (MathAvg row) as [x|]; [|by apply elem_of_nil in H].
      case_bool_decide; [|by apply elem_of_nil in H].
      by apply list_elem_of_singleton in H.
    + destruct (PassRate row) as [x|]; [|by apply elem_of_nil in H].
      case_bool_decide; [|by apply elem_of_nil in H].
      by apply list_elem_of_singleton in H as [= -> -> ->].
  - intros (-> & -> & -> & Hm). right. rewrite bool_decide_eq_true_2 by done.
    by apply list_elem_of_singleton.
Qed.

Lemma table_alerts_math what t k m :
  Low_math what k m ∈ table_alerts what t
  ↔ ∃ row, t !! k = Some row ∧ MathAvg row = Some m ∧ m < math_threshold.
Proof.
  rewrite elem_of_table_alerts. split.
  - intros (k' & row & Hrow & (_ & -> & ? & ?)%elem_of_row_alerts_math).
    by exists row.
  - intros (row & Hrow & ? & ?). exists k, row. split; [done|].
    by apply elem_of_row_alerts_math.
Qed.

Lemma table_alerts_rate what t k p :
  Low_pass_rate what k p ∈ table_alerts what t
  ↔ ∃ row, t !! k = Some row ∧ PassRate row = Some p ∧ p < pass_threshold.
Proof.
  rewrite elem_of_table_alerts. split.
  - intros (k' & row & Hrow & (_ & -> & ? & ?)%elem_of_row_alerts_rate).
    by exists row.
  - intros (row & Hrow & ? & ?). exists k, row. split; [done|].
    by apply elem_of_row_alerts_rate.
Qed.

Lemma alerts_of_table stats name what t mode :
  stats !! name = Some (Table t) →
  (mode = "track" ∧ name = "track" ∧ what = "Track"
   ∨ mode = "cohort" ∧ name = "cohort" ∧ what = "Cohort") →
  generate_performance_alerts stats mode
  = ([Blank_line; Alerts_banner; Blank_line]
       ++ table_alerts what t ++ [Done_line], None)%list.
Proof.
  intros Ht [(-> & -> & ->)|(-> & -> & ->)];
    unfold generate_performance_alerts, alerts_for; simpl; by rewrite Ht.
Qed.

Lemma elem_of_alert_lines (l : line) what t :
  l ≠ Blank_line → l ≠ Alerts_banner → l ≠ Done_line →
  l ∈ ([Blank_line; Alerts_banner; Blank_line]
         ++ table_alerts what t ++ [Done_line])%list
  ↔ l ∈ table_alerts what t.
Proof.
  intros H1 H2 H3. rewrite !elem_of_app, !elem_of_cons, elem_of_nil.
  split; [|intros H; right; by left].
  intros [[?|[?|[?|[]]]]|[?|[?|[]]]]; done.
Qed.

(** X10: when an alert is printed. On the statistics of any frame the
    alerts raise nothing, whatever the mode. In mode "track" a line for
    low mathematics is printed for a track exactly when the track view
    holds a mathematics average for it that is below 70, and a line for a
    low pass rate exactly when it holds a pass rate below 0.6; a null
    average or rate gives no line. Mode "cohort" does the same on the
    cohort view, and any other mode prints that the mode is invalid and
    no alert. *)
Theorem alerts_fire_below_thresholds (df : list record) :
  ∃ stats,
    compute_statistics df = inr stats
    ∧ (∀ mode, (generate_performance_alerts stats mode).2 = None)
    ∧ (∀ k m, Low_math "Track" k m
                ∈ (generate_performance_alerts stats "track").1
              ↔ ∃ row, groupby_agg Track df !! k = Some row
                       ∧ MathAvg row = Some m ∧ m < math_threshold)
    ∧ (∀ k p, Low_pass_rate "Track" k p
                ∈ (generate_performance_alerts stats "track").1
              ↔ ∃ row, groupby_agg Track df !! k = Some row
                       ∧ PassRate row = Some p ∧ p < pass_threshold)
    ∧ (∀ k m, Low_math "Cohort" k m
                ∈ (generate_performance_alerts stats "cohort").1
              ↔ ∃ row, groupby_agg Cohort df !! k = Some row
                       ∧ MathAvg row = Some m ∧ m < math_threshold)
    ∧ (∀ k p, Low_pass_rate "Cohort" k p
                ∈ (generate_performance_alerts stats "cohort").1
              ↔ ∃ row, groupby_agg Cohort df !! k = Some row
                       ∧ PassRate row = Some p ∧ p < pass_threshold)
    ∧ (∀ mode, mode ≠ "track" → mode ≠ "cohort" →
         (generate_performance_alerts stats mode).1
         = [Blank_line; Alerts_banner; Blank_line; Invalid_mode]).
Proof.
  destruct (compute_statistics_views df)
    as (stats & a & Hs & _ & Ht & Hc & _).
  pose proof (alerts_of_table stats "track" "Track" _ "track" Ht
                ltac:(by left)) as Etrack.
  pose proof (alerts_of_table stats "cohort" "Cohort" _ "cohort" Hc
                ltac:(by right)) as Ecohort.
  exists stats. split; [done|]. split.
  { intros mode. unfold generate_performance_alerts, alerts_for.
    destruct (String.eqb mode "track"); [by rewrite Ht|].
    destruct (String.eqb mode "cohort"); [by rewrite Hc|]. done. }
  rewrite Etrack, Ecohort. cbn [fst].
  split; [intros k m; rewrite elem_of_alert_lines by done;
          apply table_alerts_math|].
  split; [intros k p; rewrite elem_of_alert_lines by done;
          apply table_alerts_rate|].
  split; [intros k m; rewrite elem_of_alert_lines by done;
          apply table_alerts_math|].
  split; [intros k p; rewrite elem_of_alert_lines by done;
          apply table_alerts_rate|].
  intros mode H1 H2. unfold generate_performance_alerts.
  apply String.eqb_neq in H1, H2. by rewrite H1, H2.
Qed.

Lemma average_below_exists c xs :
  xs ≠ [] → average xs < c → Exists (λ x, x < c) xs.
Proof.
  intros Hne Hlt.
  destruct (decide (Forall (λ x, c ≤ x) xs)) as [Hall|Hnot].
  - apply (average_lower c xs Hne) in Hall. by apply Qcle_not_lt in Hall.
  - apply not_Forall_Exists in Hnot; [|apply _].
    eapply Exists_impl; [exact Hnot|]. intros x Hx. by apply Qcnot_le_lt.
Qed.

Lemma sum_Qc_below c x xs :
  x < c → Forall (λ y, y < c) xs →
  sum_Qc (x :: xs) < c * Qc_of_nat (length (x :: xs)).
Proof.
  intros Hx Hall. revert x Hx. induction Hall as [|y ys Hy _ IH]; intros x Hx.
  - simpl. rewrite Qc_of_nat_S, Qc_of_nat_0.
    replace (x + 0) with x by ring. by replace (c * (1 + 0)) with c by ring.
  - specialize (IH y Hy). cbn [sum_Qc foldr length] in *.
    rewrite (Qc_of_nat_S (S (length ys))).
    replace (c * (1 + Qc_of_nat (S (length ys))))
      with (c + c * Qc_of_nat (S (length ys))) by ring.
    eapply Qclt_trans; [apply Qcplus_lt_mono_r, Hx|].
    by apply Qcplus_lt_mono_l.
Qed.

Lemma average_all_below c xs :
  xs ≠ [] → Forall (λ x, x < c) xs → average xs < c.
Proof.
  intros Hne Hall. destruct xs as [|x xs]; [done|].
  apply Forall_cons in Hall as [Hx Hall].
  pose proof (sum_Qc_below c x xs Hx Hall) as Hsum.
  unfold average.
  assert (0 < Qc_of_nat (length (x :: xs))) as Hn
      by (apply Qc_of_nat_pos; simpl; lia).
  apply (Qcmult_lt_mono_pos_r _ _ _ Hn).
  replace (sum_Qc (x :: xs) / Qc_of_nat (length (x :: xs))
           * Qc_of_nat (length (x :: xs)))
    with (sum_Qc (x :: xs)); [done|].
  field. intros E. rewrite E in Hn. by apply Qclt_not_eq in Hn.
Qed.

Lemma mean_below_iff_marks c col :
  (∀ m, mean col = Some m → m < c → Exists (λ x, x < c) (dropna col))
  ∧ (dropna col ≠ [] → Forall (λ x, x < c) (dropna col) →
       ∃ m, mean col = Some m ∧ m < c)
  ∧ (Forall (λ x, c ≤ x) (dropna col) → ∀ m, mean col = Some m → ¬ m < c).
Proof.
  unfold mean. destruct (dropna col) as [|x xs] eqn:E.
  - split; [done|]. split; done.
  - split; [|split].
    + intros m [= <-]. by apply average_below_exists.
    + intros _ Hall. eexists. split; [done|]. by apply average_all_below.
    + intros Hall m [= <-]. apply Qcle_not_lt. by apply average_lower.
Qed.

(** X11: an alert follows the marks. On the statistics of any frame, in
    mode "track": if a track is flagged for low mathematics then one of
    its rows has a mathematics mark below 70; a track whose known marks
    are all at least 70, or that has no known mark, is not flagged; and a
    track that has a known mark and whose known marks are all below 70 is
    flagged. *)
Theorem alerts_follow_the_marks (df : list record) (k : cell) :
  ∃ stats,
    compute_statistics df = inr stats
    ∧ let lines := (generate_performance_alerts stats "track").1 in
      let marks := dropna (Math <$> filter (λ r, Track r = k) df) in
      ((∃ m, Low_math "Track" k m ∈ lines) →
         ∃ r x, r ∈ df ∧ Track r = k ∧ Math r = Some x ∧ x < math_threshold)
      ∧ (Forall (λ x, math_threshold ≤ x) marks →
           ¬ ∃ m, Low_math "Track" k m ∈ lines)
      ∧ (is_null k = false → marks ≠ [] →
         Forall (λ x, x < math_threshold) marks →
           ∃ m, Low_math "Track" k m ∈ lines).
Proof.
  destruct (compute_statistics_views df) as (stats & a & Hs & _ & Ht & _).
  exists stats. split; [done|]. intros lines marks.
  assert (Hmath : ∀ m, Low_math "Track" k m ∈ lines
            ↔ ∃ row, groupby_agg Track df !! k = Some row
                     ∧ MathAvg row = Some m ∧ m < math_threshold).
  { intros m. unfold lines.
    rewrite (alerts_of_table stats "track" "Track" _ "track" Ht)
      by (by left).
    cbn [fst]. rewrite elem_of_alert_lines by done.
    apply table_alerts_math. }
  assert (Hrow : ∀ row, groupby_agg Track df !! k = Some row →
            is_null k = false
            ∧ MathAvg row = mean (Math <$> filter (λ r, Track r = k) df)).
  { intros row. unfold groupby_agg. rewrite lookup_fmap.
    destruct (groupby Track df !! k) as [rows|] eqn:Hg; [|done].
    apply groupby_lookup_Some in Hg as [-> Hne]. intros [= <-].
    assert (is_null k = false) as Hk.
    { destruct (is_null k) eqn:E; [|done].
      by rewrite group_rows_null in Hne. }
    split; [done|]. simpl. by rewrite group_rows_nonnull. }
  pose proof (mean_below_iff_marks math_threshold
                (Math <$> filter (λ r, Track r = k) df)) as (H1 & H2 & H3).
  fold marks in H1, H2, H3. split; [|split].
  - intros [m Hm]. apply Hmath in Hm as (row & Hr & Havg & Hlt).
    apply Hrow in Hr as [_ Hr]. rewrite Hr in Havg.
    specialize (H1 m Havg Hlt). apply Exists_exists in H1 as (x & Hx & Hxlt).
    apply list_elem_of_omap in Hx as (o & Ho & Hox). simpl in Hox. subst o.
    apply list_elem_of_fmap in Ho as (r & Hr' & Hin).
    apply list_elem_of_filter in Hin as [Hk Hin]. by exists r, x.
  - intros Hall [m Hm]. apply Hmath in Hm as (row & Hr & Havg & Hlt).
    apply Hrow in Hr as [_ Hr]. rewrite Hr in Havg. by apply (H3 Hall m).
  - intros Hk Hne Hall. destruct (H2 Hne Hall) as (m & Hm & Hlt).
    exists m. apply Hmath.
    assert (group_rows Track df k ≠ []) as Hg.
    { rewrite group_rows_nonnull by done. intros E. apply Hne.
      unfold marks. by rewrite E. }
    exists (agg (group_rows Track df k)). split; [|split; [|done]].
    + unfold groupby_agg. rewrite lookup_fmap, groupby_lookup.
      by destruct (group_rows Track df k).
    + simpl. by rewrite group_rows_nonnull.
Qed.

Lemma alerts_follow_the_marks_example :
  ∃ stats,
    compute_statistics Sample.frame = inr stats
    ∧ ¬ ∃ m, Low_math "Track" (PyStr "B") m
               ∈ (generate_performance_alerts stats "track").1.
Proof.
  destruct (alerts_follow_the_marks Sample.frame (PyStr "B"))
    as (stats & Hs & _ & H & _).
  exists stats. split; [done|]. apply H. simpl. constructor.
Defined.

End Alerts.

(** ** The shell *)

Ltac io_step :=
  unfold io_bind, emit, input, io_ret, io_raise; cbn [fst snd app].

Ltac choice_cases c :=
  repeat (destruct (String.eqb c _); [intros [= <-]|]); try done.

Ltac not_listed :=
  repeat first
    [rewrite elem_of_cons | rewrite elem_of_app | rewrite elem_of_nil];
  intuition (try discriminate).

Section Submenu.
Context (m : menu) (actions : string → option (io unit)).

Lemma submenu_left_by_zero fuel ins :
  all_tame actions →
  length ins < fuel → left_by_zero ins (submenu m actions fuel ins).2.
Proof.
  intros Htame. revert ins.
  induction fuel as [|fuel IH]; intros ins Hlen; [lia|].
  cbn [submenu]. io_step. destruct ins as [|c rest]; [done|].
  simpl in Hlen. destruct (actions c) as [a|] eqn:Ha.
  - destruct (Htame c a Ha rest) as [[tr E]|(tr & e & E)]; rewrite E; [|done].
    destruct rest as [|x rest2]; [done|]. simpl in Hlen.
    specialize (IH rest2 ltac:(lia)).
    destruct (submenu m actions fuel rest2) as [tr' o]. simpl in *.
    destruct o as [[] rest'|e|]; [|done|done].
    destruct IH as [pre ->]. by exists (c :: x :: pre).
  - destruct (String.eqb_spec c "0") as [->|Hc]; [by exists []|].
    destruct rest as [|x rest2]; [done|]. simpl in Hlen.
    specialize (IH rest2 ltac:(lia)).
    destruct (submenu m actions fuel rest2) as [tr' o]. simpl in *.
    destruct o as [[] rest'|e|]; [|done|done].
    destruct IH as [pre ->]. by exists (c :: x :: pre).
Qed.

Lemma submenu_fuel fuel1 fuel2 ins :
  all_tame actions →
  length ins < fuel1 → length ins < fuel2 →
  submenu m actions fuel1 ins = submenu m actions fuel2 ins.
Proof.
  intros Htame. revert fuel2 ins.
  induction fuel1 as [|fuel1 IH]; intros fuel2 ins H1 H2; [lia|].
  destruct fuel2 as [|fuel2]; [lia|].
  cbn [submenu]. io_step. destruct ins as [|c rest]; [done|].
  simpl in H1, H2. destruct (actions c) as [a|] eqn:Ha.
  - destruct (Htame c a Ha rest) as [[tr E]|(tr & e & E)]; rewrite E; [|done].
    destruct rest as [|x rest2]; [done|]. simpl in H1, H2.
    by rewrite (IH fuel2 rest2) by lia.
  - destruct (String.eqb c "0"); [done|].
    destruct rest as [|x rest2]; [done|]. simpl in H1, H2.
    by rewrite (IH fuel2 rest2) by lia.
Qed.

Lemma submenu_raises_only P fuel ins :
  P EOFError → all_raise_only P actions →
  raises_only P (submenu m actions fuel ins).2.
Proof.
  intros HP Hactions. revert ins.
  induction fuel as [|fuel IH]; intros ins; [done|].
  cbn [submenu]. io_step. destruct ins as [|c rest]; [done|].
  destruct (actions c) as [a|] eqn:Ha.
  - pose proof (Hactions c a rest Ha) as Hr.
    destruct (a rest) as [tr [[] rest1|e|]]; [|done|done].
    destruct rest1 as [|x rest2]; [done|].
    specialize (IH rest2). by destruct (submenu m actions fuel rest2).
  - destruct (String.eqb c "0"); [done|].
    destruct rest as [|x rest2]; [done|].
    specialize (IH rest2). by destruct (submenu m actions fuel rest2).
Qed.

Lemma submenu_no_goodbye fuel ins :
  (∀ c a, actions c = Some a → no_goodbye a) →
  Goodbye ∉ (submenu m actions fuel ins).1.
Proof.
  intros Hng. revert ins. induction fuel as [|fuel IH]; intros ins.
  { apply not_elem_of_nil. }
  cbn [submenu]. io_step. destruct ins as [|c rest]; [simpl; not_listed|].
  destruct (actions c) as [a|] eqn:Ha.
  - pose proof (Hng c a Ha rest) as Hg.
    destruct (a rest) as [tr [[] rest1|e|]]; simpl in *; [|not_listed..].
    destruct rest1 as [|x rest2]; simpl; [not_listed|].
    specialize (IH rest2).
    destruct (submenu m actions fuel rest2) as [tr' o]. simpl in *.
    not_listed.
  - destruct (String.eqb c "0"); simpl; [not_listed|].
    destruct rest as [|x rest2]; simpl; [not_listed|].
    specialize (IH rest2).
    destruct (submenu m actions fuel rest2) as [tr' o]. simpl in *.
    not_listed.
Qed.

End Submenu.

Lemma compute_statistics_complete df stats :
  compute_statistics df = inr stats → complete stats.
Proof.
  intros Hs.
  destruct (compute_statistics_views df)
    as (stats' & a & Hs' & _ & Ht & Hc & Hi & Hh & Hm & Ha & _).
  rewrite Hs in Hs'. injection Hs' as <-. split; intros name Hn.
  - repeat (apply elem_of_cons in Hn as [->|Hn]; [by eexists|]).
    by apply elem_of_nil in Hn.
  - repeat (apply elem_of_cons in Hn as [->|Hn]; [by eexists|]).
    by apply elem_of_nil in Hn.
Qed.

(** *** The actions *)

Lemma print_view_tame stats name : tame (print_view stats name).
Proof.
  unfold print_view. intros ins.
  destruct (stats !! name); [left|right]; by repeat eexists.
Qed.

Lemma print_pass_rates_tame stats name : tame (print_pass_rates stats name).
Proof.
  unfold print_pass_rates. intros ins.
  destruct (stats !! name) as [[]|];
    first [left; by eexists | right; by eexists _, _].
Qed.

Lemma print_alerts_tame stats mode : tame (print_alerts stats mode).
Proof.
  intros ins. unfold print_alerts.
  destruct (generate_performance_alerts stats mode) as [lines [e|]].
  - right. by eexists _, _.
  - left. by eexists.
Qed.

Lemma call_tame e raised : tame (call e raised).
Proof.
  intros ins. unfold call. destruct raised; [right|left]; by repeat eexists.
Qed.

Lemma print_view_returns stats name ins :
  is_Some (stats !! name) → returned (print_view stats name ins).2.
Proof. unfold print_view. by intros [v ->]. Qed.

Lemma print_pass_rates_returns stats name t ins :
  stats !! name = Some (Table t) →
  returned (print_pass_rates stats name ins).2.
Proof. unfold print_pass_rates. by intros ->. Qed.

Lemma alerts_raise_nothing stats mode :
  complete stats → (generate_performance_alerts stats mode).2 = None.
Proof.
  intros [Htab _]. unfold generate_performance_alerts, alerts_for.
  destruct (Htab "track") as [t Ht]; [by left|].
  destruct (Htab "cohort") as [c Hc]; [right; by left|].
  destruct (String.eqb mode "track"); [by rewrite Ht|].
  destruct (String.eqb mode "cohort"); [by rewrite Hc|]. done.
Qed.

Lemma print_alerts_returns stats mode ins :
  complete stats → returned (print_alerts stats mode ins).2.
Proof.
  intros Hc. pose proof (alerts_raise_nothing stats mode Hc) as H.
  unfold print_alerts.
  destruct (generate_performance_alerts stats mode) as [lines o].
  simpl in H. by subst o.
Qed.

Lemma returned_raises_only {A} P (o : outcome A) :
  returned o → raises_only P o.
Proof. by destruct o. Qed.

Lemma print_view_no_goodbye stats name : no_goodbye (print_view stats name).
Proof.
  unfold print_view. intros ins.
  destruct (stats !! name); simpl; not_listed.
Qed.

Lemma print_pass_rates_no_goodbye stats name :
  no_goodbye (print_pass_rates stats name).
Proof.
  unfold print_pass_rates. intros ins.
  destruct (stats !! name) as [[]|]; simpl; not_listed.
Qed.

Lemma print_alerts_no_goodbye stats mode : no_goodbye (print_alerts stats mode).
Proof.
  intros ins. unfold print_alerts.
  destruct (generate_performance_alerts stats mode) as [lines o]. simpl.
  by intros (l & ? & _)%list_elem_of_fmap.
Qed.

Lemma call_no_goodbye e raised : e ≠ Goodbye → no_goodbye (call e raised).
Proof. intros He ins Hin. by apply list_elem_of_singleton in Hin. Qed.

Section Main.
Context (df : list record) (stats : gmap string view).
Context (visuals : list record → option shell_exn).
Context (exports : list record → gmap string view → option shell_exn).

Implicit Types (c : string) (fuel : nat) (ins : list string).

Lemma main_choice_submenu c sub :
  main_choice df stats visuals exports c = Some sub →
  ∃ m actions,
    sub = submenu m actions ∧ all_tame actions
    ∧ (∀ x a, actions x = Some a → no_goodbye a)
    ∧ (complete stats → all_raise_only
         (session_exn df stats visuals exports) actions).
Proof.
  unfold main_choice. choice_cases c.
  - exists Track_menu, (track_actions stats). split; [done|]. repeat split.
    + intros x a. unfold track_actions. choice_cases x; apply print_view_tame.
    + intros x a. unfold track_actions.
      choice_cases x; apply print_view_no_goodbye.
    + intros [Htab Hv] x a ins. unfold track_actions.
      destruct (String.eqb x "1").
      { intros [= <-]. apply returned_raises_only, print_view_returns.
        destruct (Htab "track") as [t ->]; [by left|]. by eexists. }
      choice_cases x; apply returned_raises_only, print_view_returns, Hv;
        repeat first [by left | right].
  - exists Cohort_menu, (cohort_actions stats). split; [done|]. repeat split.
    + intros x a. unfold cohort_actions.
      choice_cases x; [apply print_view_tame|apply print_pass_rates_tame].
    + intros x a. unfold cohort_actions.
      choice_cases x;
        [apply print_view_no_goodbye|apply print_pass_rates_no_goodbye].
    + intros [Ht _] x a ins. unfold cohort_actions.
      destruct (Ht "cohort") as [t Hc]; [right; by left|].
      choice_cases x; apply returned_raises_only;
        [apply print_view_returns; by rewrite Hc
        |by eapply print_pass_rates_returns].
  - exists Income_menu, (income_actions stats). split; [done|]. repeat split.
    + intros x a. unfold income_actions.
      choice_cases x; [apply print_view_tame|apply print_pass_rates_tame].
    + intros x a. unfold income_actions.
      choice_cases x;
        [apply print_view_no_goodbye|apply print_pass_rates_no_goodbye].
    + intros [Ht _] x a ins. unfold income_actions.
      destruct (Ht "income") as [t Hc]; [do 2 right; by left|].
      choice_cases x; apply returned_raises_only;
        [apply print_view_returns; by rewrite Hc
        |by eapply print_pass_rates_returns].
  - exists Visuals_menu, (visuals_actions df visuals).
    split; [done|]. repeat split.
    + intros x a. unfold visuals_actions. choice_cases x. apply call_tame.
    + intros x a. unfold visuals_actions.
      choice_cases x. by apply call_no_goodbye.
    + intros _ x a ins. unfold visuals_actions. choice_cases x.
      unfold call. simpl. destruct (visuals df) eqn:E; [|done].
      right. by left.
  - exists Export_menu, (export_actions df stats exports).
    split; [done|]. repeat split.
    + intros x a. unfold export_actions. choice_cases x. apply call_tame.
    + intros x a. unfold export_actions.
      choice_cases x. by apply call_no_goodbye.
    + intros _ x a ins. unfold export_actions. choice_cases x.
      unfold call. simpl. destruct (exports df stats) eqn:E; [|done].
      right. by right.
  - exists Alerts_menu, (alerts_actions stats). split; [done|]. repeat split.
    + intros x a. unfold alerts_actions.
      choice_cases x; apply print_alerts_tame.
    + intros x a. unfold alerts_actions.
      choice_cases x; apply print_alerts_no_goodbye.
    + intros Hc x a ins. unfold alerts_actions.
      choice_cases x; by apply returned_raises_only, print_alerts_returns.
Qed.

Lemma main_menu_left_by_zero fuel ins :
  length ins < fuel →
  left_by_zero ins (main_menu df stats visuals exports fuel ins).2.
Proof.
  revert ins. induction fuel as [|fuel IH]; intros ins Hlen; [lia|].
  cbn [main_menu]. io_step. destruct ins as [|c rest]; [done|].
  simpl in Hlen.
  destruct (main_choice df stats visuals exports c) as [sub|] eqn:Hsub.
  - destruct (main_choice_submenu c sub Hsub) as (m & actions & -> & Ht & _).
    pose proof (submenu_left_by_zero m actions fuel rest Ht ltac:(lia)) as Hs.
    destruct (submenu m actions fuel rest) as [tr o]. simpl in Hs.
    destruct o as [[] rest1|e|]; [|done|done].
    destruct Hs as [pre ->]. rewrite length_app in Hlen. simpl in Hlen.
    specialize (IH rest1 ltac:(lia)).
    destruct (main_menu df stats visuals exports fuel rest1) as [tr' o].
    simpl in *.
    destruct o as [[] rest'|e|]; [|done|done].
    destruct IH as [pre' ->]. exists (c :: pre ++ "0" :: pre')%list.
    simpl. f_equal. by rewrite <- app_assoc.
  - destruct (String.eqb_spec c "0") as [->|Hc]; [by exists []|].
    destruct rest as [|x rest2]; [done|]. simpl in Hlen.
    specialize (IH rest2 ltac:(lia)).
    destruct (main_menu df stats visuals exports fuel rest2) as [tr' o].
    simpl in *.
    destruct o as [[] rest'|e|]; [|done|done].
    destruct IH as [pre ->]. by exists (c :: x :: pre).
Qed.

Lemma main_menu_fuel fuel1 fuel2 ins :
  length ins < fuel1 → length ins < fuel2 →
  main_menu df stats visuals exports fuel1 ins
  = main_menu df stats visuals exports fuel2 ins.
Proof.
  revert fuel2 ins. induction fuel1 as [|fuel1 IH]; intros fuel2 ins H1 H2;
    [lia|]. destruct fuel2 as [|fuel2]; [lia|].
  cbn [main_menu]. io_step. destruct ins as [|c rest]; [done|].
  simpl in H1, H2.
  destruct (main_choice df stats visuals exports c) as [sub|] eqn:Hsub.
  - destruct (main_choice_submenu c sub Hsub) as (m & actions & -> & Ht & _).
    rewrite (submenu_fuel m actions fuel1 fuel2 rest) by (done || lia).
    pose proof (submenu_left_by_zero m actions fuel2 rest Ht ltac:(lia)) as Hs.
    destruct (submenu m actions fuel2 rest) as [tr o]. simpl in Hs.
    destruct o as [[] rest1|e|]; [|done|done].
    destruct Hs as [pre ->]. rewrite length_app in H1, H2. simpl in H1, H2.
    by rewrite (IH fuel2 rest1) by lia.
  - destruct (String.eqb c "0"); [done|].
    destruct rest as [|x rest2]; [done|]. simpl in H1, H2.
    by rewrite (IH fuel2 rest2) by lia.
Qed.

Lemma main_menu_raises_only fuel ins :
  complete stats → raises_only (session_exn df stats visuals exports)
    (main_menu df stats visuals exports fuel ins).2.
Proof.
  intros Hc. revert ins. induction fuel as [|fuel IH]; intros ins; [done|].
  cbn [main_menu]. io_step. destruct ins as [|c rest]; [by left|].
  destruct (main_choice df stats visuals exports c) as [sub|] eqn:Hsub.
  - destruct (main_choice_submenu c sub Hsub)
      as (m & actions & -> & _ & _ & Hq).
    pose proof (submenu_raises_only m actions _ fuel rest
                  (or_introl eq_refl) (Hq Hc)) as Hs.
    destruct (submenu m actions fuel rest) as [tr o]. simpl in Hs.
    destruct o as [[] rest1|e|]; [|done|done].
    specialize (IH rest1).
    by destruct (main_menu df stats visuals exports fuel rest1).
  - destruct (String.eqb c "0"); [done|].
    destruct rest as [|x rest2]; [by left|].
    specialize (IH rest2).
    by destruct (main_menu df stats visuals exports fuel rest2).
Qed.

Lemma main_menu_goodbye fuel ins :
  Goodbye ∈ (main_menu df stats visuals exports fuel ins).1
  ↔ returned (main_menu df stats visuals exports fuel ins).2.
Proof.
  revert ins. induction fuel as [|fuel IH]; intros ins.
  { simpl. split; [by intros ?%elem_of_nil|done]. }
  cbn [main_menu]. io_step.
  destruct ins as [|c rest]; [simpl; split; [not_listed|done]|].
  destruct (main_choice df stats visuals exports c) as [sub|] eqn:Hsub.
  - destruct (main_choice_submenu c sub Hsub)
      as (m & actions & -> & _ & Hng & _).
    pose proof (submenu_no_goodbye m actions fuel rest Hng) as Hg.
    destruct (submenu m actions fuel rest) as [tr [[] rest1|e|]];
      simpl in *; [|split; [not_listed|done]..].
    specialize (IH rest1).
    destruct (main_menu df stats visuals exports fuel rest1) as [tr' o].
    simpl in *.
    rewrite <- IH. split; [not_listed|]. intros ?.
    do 3 right. apply elem_of_app. by right.
  - destruct (String.eqb c "0"); simpl.
    + split; [done|]. intros _. do 4 right. by left.
    + destruct rest as [|x rest2]; simpl; [split; [not_listed|done]|].
      specialize (IH rest2).
      destruct (main_menu df stats visuals exports fuel rest2) as [tr' o].
    simpl in *.
      rewrite <- IH. split; [not_listed|]. intros ?. by do 4 right.
Qed.

End Main.

(** X12: the loops end with the input. The main menu and its submenus,
    given more fuel than there are lines typed, do not run out of it, and
    what they print and how they end does not depend on the amount: every
    turn of a [while True] loop reads a line, so that on a finite input a
    session ends, by a return or by an exception. *)
Theorem menus_end_with_the_input
    (df : list record) (stats : gmap string view)
    (visuals : list record → option shell_exn)
    (exports : list record → gmap string view → option shell_exn)
    (fuel : nat) (ins : list string) :
  length ins < fuel →
  main_menu df stats visuals exports fuel ins
  = session df stats visuals exports ins
  ∧ (session df stats visuals exports ins).2 ≠ Out_of_fuel.
Proof.
  intros Hlen. split.
  - apply main_menu_fuel; [done|lia].
  - pose proof (main_menu_left_by_zero df stats visuals exports
                  (S (length ins)) ins ltac:(lia)) as H.
    unfold session. intros E. by rewrite E in H.
Qed.

Lemma menus_end_with_the_input_example :
  main_menu [] ∅ (λ _, None) (λ _ _, None) 9 ["1"; "7"; ""; "0"; "0"; "left"]
  = session [] ∅ (λ _, None) (λ _ _, None) ["1"; "7"; ""; "0"; "0"; "left"]
  ∧ (session [] ∅ (λ _, None) (λ _ _, None)
       ["1"; "7"; ""; "0"; "0"; "left"]).2 ≠ Out_of_fuel.
Proof. apply (menus_end_with_the_input [] ∅). simpl. lia. Defined.

(** X13: the way out. A session returns only after a line "0" was read,
    and leaves the lines typed after it; without any line "0" it ends in
    an exception. "Goodbye!" is printed exactly by the sessions that
    return. *)
Theorem session_left_only_by_zero
    (df : list record) (stats : gmap string view)
    (visuals : list record → option shell_exn)
    (exports : list record → gmap string view → option shell_exn)
    (ins : list string) :
  (∀ rest, (session df stats visuals exports ins).2 = Returns () rest →
     ∃ pre, ins = (pre ++ "0" :: rest)%list)
  ∧ ("0" ∉ ins → ∃ e, (session df stats visuals exports ins).2 = Raises e)
  ∧ (Goodbye ∈ (session df stats visuals exports ins).1
     ↔ returned (session df stats visuals exports ins).2).
Proof.
  pose proof (main_menu_left_by_zero df stats visuals exports
                (S (length ins)) ins ltac:(lia)) as H.
  unfold session. split; [|split].
  - intros rest E. by rewrite E in H.
  - intros Hno.
    destruct (main_menu df stats visuals exports (S (length ins)) ins).2
      as [[] rest|e|]; [|by exists e|done].
    destruct H as [pre ->]. destruct Hno.
    apply elem_of_app. right. by left.
  - apply main_menu_goodbye.
Qed.

(** X14: no lookup fails. On the statistics of any frame, an exception
    that ends a session is [EOFError], raised by [input] at the end of the
    lines typed, or was raised by [generate_visuals] or [export_outputs]:
    the lookups of the views and of their pass rates, and the alerts,
    raise nothing. *)
Theorem session_raises_at_end_of_input (df : list record) :
  ∃ stats,
    compute_statistics df = inr stats
    ∧ ∀ visuals exports ins e,
        (session df stats visuals exports ins).2 = Raises e →
        e = EOFError ∨ visuals df = Some e ∨ exports df stats = Some e.
Proof.
  destruct (compute_statistics_views df) as (stats & a & Hs & _).
  exists stats. split; [done|]. intros visuals exports ins e E.
  pose proof (main_menu_raises_only df stats visuals exports
                (S (length ins)) ins
                (compute_statistics_complete df stats Hs)) as H.
  unfold session in E. by rewrite E in H.
Qed.

Lemma main_menu_starts df stats visuals exports fuel ins :
  ∃ tr, (main_menu df stats visuals exports (S fuel) ins).1
        = Cleared :: Menu_shown Main_menu :: Asked Enter_your_choice :: tr.
Proof.
  cbn [main_menu]. io_step. destruct ins as [|c rest]; [by eexists|].
  match goal with
  | |- context [let '(_, _) := ?run in (([Asked _] ++ _)%list, _)] =>
      destruct run as [tr o]
  end.
  by exists tr.
Qed.

(** X15: [main] loads before it asks. When the load raises, [main] raises
    the same exception with nothing shown and no line read — so without
    any file, [FileNotFoundError]. Otherwise the statistics are computed
    without an exception and the session is run on them: it starts by
    showing the main menu and asking for a choice. *)
Theorem main_loads_before_the_menu
    (files : list (string * workbook))
    (visuals : list record → option shell_exn)
    (exports : list record → gmap string view → option shell_exn)
    (ins : list string) :
  match load_and_clean_excel files with
  | inl e =>
      main files visuals exports ins = ([], Raises (Raised_by_core e))
      ∧ (files = [] → e = FileNotFoundError)
  | inr df =>
      ∃ stats tr,
        compute_statistics df = inr stats
        ∧ main files visuals exports ins
          = session df stats visuals exports ins
        ∧ (main files visuals exports ins).1
          = Cleared :: Menu_shown Main_menu :: Asked Enter_your_choice :: tr
  end.
Proof.
  unfold main. destruct (load_and_clean_excel files) as [e|df] eqn:Hload.
  - split; [done|]. intros ->. by injection Hload as <-.
  - destruct (compute_statistics_views df) as (stats & a & Hs & _).
    rewrite Hs.
    destruct (main_menu_starts df stats visuals exports (length ins) ins)
      as [tr Htr].
    by exists stats, tr.
Qed.
